(** * dadi/web: the Markdown datasource provider and the page view

    A shallow embedding of [dadi/lib/providers/markdown.js] and
    [dadi/lib/view/index.js].  JavaScript strings are modelled as [string]
    (sequences of 8-bit code units), JavaScript numbers by the integers they
    hold ([Z]); a computation that may throw returns a [completion]. *)

From Stdlib Require Import ZArith Lia Ascii String.
From stdpp Require Import base option list strings gmap sorting.

(** ** JavaScript runtime pieces used by the two files *)

Module Js.

(** An [Error] object: the two standard properties and the [statusCode]
    that [View.render] attaches to template failures. *)
Record Error := mkError {
  err_name : string;
  err_message : string;
  statusCode : option Z
}.

Definition TypeError (msg : string) : Error := mkError "TypeError" msg None.
Definition SyntaxError (msg : string) : Error := mkError "SyntaxError" msg None.

(** Completion of an evaluation: a value, or a thrown exception. *)
Inductive completion (A : Type) :=
| Normal (a : A)
| Throw (e : Error).
Arguments Normal {A} a.
Arguments Throw {A} e.

#[global] Instance completion_ret : MRet completion := λ A a, Normal a.
#[global] Instance completion_bind : MBind completion := λ A B k c,
  match c with
  | Normal a => k a
  | Throw e => Throw e
  end.
#[global] Instance completion_fmap : FMap completion := λ A B f c,
  match c with
  | Normal a => Normal (f a)
  | Throw e => Throw e
  end.

(** *** Regular expressions

    The fragment of the pattern language the two patterns of markdown.js are
    written in: literal characters, the dot, a greedy repetition of a
    character class (one or more), a capturing greedy repetition of a class
    (zero or more) and the end-of-input anchor.  Matching is by backtracking,
    left to right, longest repetition first, as in the ECMAScript semantics. *)
Inductive atom :=
| Lit (c : ascii)
| Dot
| Plus (cls : ascii → bool)
| Group (cls : ascii → bool)
| Eos.

Definition is_line_terminator (c : ascii) : bool :=
  Ascii.eqb c "010"%char || Ascii.eqb c "013"%char.

(** The class [[\n\r]] and the class [[\s\S]]. *)
Definition cls_newline : ascii → bool := is_line_terminator.
Definition cls_any : ascii → bool := λ _, true.

(** [greedy cls k taken rest]: extend [taken] with as many characters of
    [rest] in [cls] as possible, giving back one at a time while the
    continuation [k] fails. *)
Fixpoint greedy {R} (cls : ascii → bool) (k : list ascii → list ascii → option R)
    (taken rest : list ascii) : option R :=
  match rest with
  | c :: rest' =>
      if cls c then
        match greedy cls k (taken ++ [c]) rest' with
        | Some r => Some r
        | None => k taken rest
        end
      else k taken rest
  | [] => k taken rest
  end.

(** [match_atoms r s caps]: match the pattern [r] at the head of [s]; the
    result is the captures, in order, and the input left after the match. *)
Fixpoint match_atoms (r : list atom) (s : list ascii) (caps : list string)
    : option (list string * list ascii) :=
  match r with
  | [] => Some (caps, s)
  | Lit c :: r' =>
      match s with
      | x :: s' => if Ascii.eqb x c then match_atoms r' s' caps else None
      | [] => None
      end
  | Dot :: r' =>
      match s with
      | x :: s' => if is_line_terminator x then None else match_atoms r' s' caps
      | [] => None
      end
  | Plus cls :: r' =>
      match s with
      | x :: s' =>
          if cls x then greedy cls (λ _ rest, match_atoms r' rest caps) [x] s'
          else None
      | [] => None
      end
  | Group cls :: r' =>
      greedy cls
        (λ g rest, match_atoms r' rest (caps ++ [string_of_list_ascii g])) [] s
  | Eos :: r' =>
      match s with
      | [] => match_atoms r' s caps
      | _ :: _ => None
      end
  end.

(** Try the start positions from the head of [s] on; the result also counts
    the positions skipped before the match. *)
Fixpoint scan (r : list atom) (s : list ascii)
    : option (nat * list string * list ascii) :=
  match match_atoms r s [] with
  | Some (caps, rest) => Some (0, caps, rest)
  | None =>
      match s with
      | [] => None
      | _ :: s' =>
          match scan r s' with
          | Some (n, caps, rest) => Some (S n, caps, rest)
          | None => None
          end
      end
  end.

(** A RegExp object: its pattern, its [g] flag and the mutable [lastIndex]. *)
Record RegExp := mkRegExp {
  source : list atom;
  global : bool;
  lastIndex : nat
}.

Definition set_lastIndex (R : RegExp) (i : nat) : RegExp :=
  mkRegExp (source R) (global R) i.

(** [RegExp.prototype.exec]: the match array (element 0 the matched text,
    then the captures) or [None] for [null], and the RegExp object after the
    call.  A global RegExp starts at [lastIndex], stores the end of the match
    there, and resets it to 0 when the search fails. *)
Definition exec (R : RegExp) (S : string) : option (list string) * RegExp :=
  let s := list_ascii_of_string S in
  let start := if global R then lastIndex R else 0 in
  if length s <? start then
    (None, if global R then set_lastIndex R 0 else R)
  else
    match scan (source R) (drop start s) with
    | None => (None, if global R then set_lastIndex R 0 else R)
    | Some (skipped, caps, rest) =>
        let b := start + skipped in
        let e := length s - length rest in
        (Some (string_of_list_ascii (take (e - b) (drop b s)) :: caps),
         if global R then set_lastIndex R e else R)
    end.

(** [RegExp.prototype.test]. *)
Definition test (R : RegExp) (S : string) : bool * RegExp :=
  let '(m, R') := exec R S in (match m with Some _ => true | None => false end, R').

(** *** Patterns given as strings

    [new RegExp(source, flags)] reads [source] as a pattern: the syntax
    characters of the pattern language are not taken literally. *)
Definition syntax_character (c : ascii) : bool :=
  existsb (Ascii.eqb c) (list_ascii_of_string "^$\.*+?()[]{}|").

(** The atom a character of a pattern source stands for, in the fragment
    above: the dot, the end anchor, or a character that is no syntax
    character and matches itself.  The other syntax characters (escapes,
    quantifiers, groups, classes, alternatives) are outside the fragment. *)
Definition atom_of_character (c : ascii) : option atom :=
  if Ascii.eqb c "." then Some Dot
  else if Ascii.eqb c "$" then Some Eos
  else if syntax_character c then None
  else Some (Lit c).

Fixpoint parse_pattern (source : list ascii) : option (list atom) :=
  match source with
  | [] => Some []
  | c :: source' =>
      a ← atom_of_character c; atoms ← parse_pattern source'; Some (a :: atoms)
  end.

(** The rest of the pattern language is left to the engine: what
    [new RegExp(source, 'g')] gives for a source outside the fragment (an
    object, or a thrown SyntaxError when the source is no pattern), and the
    [test] method of such an object, which may update it. *)
Record RegExpEngine := mkRegExpEngine {
  foreign : Type;
  foreign_new : string → completion foreign;
  foreign_test : foreign → string → bool * foreign
}.

End Js.

(** ** dadi/lib/providers/markdown.js *)

Module MarkdownProvider.
Import Js.

(** *** Data model *)

(** A front-matter attribute value: the scalars js-yaml produces.  [VDate t]
    is a Date object holding the valid time value [t] (milliseconds). *)
Inductive value :=
| VUndefined
| VNull
| VBool (b : bool)
| VNum (n : Z)
| VStr (s : string)
| VDate (t : Z).

(** The [meta] object of a post. *)
Record Meta := mkMeta {
  location : string;
  extension : string;
  handle : string
}.

(** One parsed document.  [attributes] is whatever [yaml.safeLoad] returned:
    a mapping, or [None] for [undefined] (an empty YAML document). *)
Record Post := mkPost {
  meta : Meta;
  attributes : option (gmap string value);
  original : string;
  contentText : string;
  contentHtml : string
}.

(** [schema.datasource]: every property may be missing ([None]). *)
Record Datasource := mkDatasource {
  source_path : string;
  source_extension : option string;
  ds_sort : option (list (string * value));
  ds_search : option (list (string * value));
  ds_count : option Z;
  ds_fields : option (list string);
  ds_filter : option (list (string * value));
  ds_page : option Z
}.

(** The provider object after [initialise]. *)
Record Provider := mkProvider {
  schema : Datasource;
  this_extension : string
}.

(** The part of [fs] the provider calls.  A [Throw] of [readFile] is the
    error handed to the read callback. *)
Record FileSystem := mkFileSystem {
  readdirSync : string → completion (list string);
  readFile : string → completion string
}.

(** What [readFileAsync] hands on: [{_name, _contents}]. *)
Record RawFile := mkRawFile {
  _name : string;
  _contents : string
}.

(** The pagination metadata object. *)
Record PaginationMetadata := mkPaginationMetadata {
  md_page : Z;
  md_limit : Z;
  totalCount : Z;
  totalPages : Z;
  prevPage : option Z;
  nextPage : option Z
}.

(** The values the variable [metadata] of [load] takes: the array literal
    it is initialised with, the object built by the metadata helper, [null]. *)
Inductive metadata_value :=
| MEmptyArray
| MObject (m : PaginationMetadata)
| MNull.

(** A projected field, and an element of [results]: a post, or the object
    the field selection made of it. *)
Inductive field_value :=
| FMeta (m : Meta)
| FAttributes (a : option (gmap string value))
| FScalar (v : value).

Inductive Item :=
| Record_ (p : Post)
| Projected (o : list (string * field_value)).

Record Envelope := mkEnvelope {
  results : list Item;
  metadata : metadata_value
}.

(** How a call of [load] ends: [done] invoked with [(err, payload)], or an
    exception that no handler of [load] catches. *)
Inductive outcome :=
| Done (err : option Error) (payload : option Envelope)
| Uncaught (e : Error).

(** *** Truthiness *)

Definition truthy_string (s : string) : bool :=
  match s with EmptyString => false | _ => true end.

Definition truthy_num (n : option Z) : bool :=
  match n with Some n => negb (n =? 0)%Z | None => false end.

Definition truthy_metadata (m : metadata_value) : bool :=
  match m with MEmptyArray => true | MObject _ => true | MNull => false end.

(** [metadata || null] *)
Definition or_null (m : metadata_value) : metadata_value :=
  if truthy_metadata m then m else MNull.

(** [initialise]: the extension of the schema, or ['md']. *)
Definition initialise (sch : Datasource) : Provider :=
  mkProvider sch
    (match source_extension sch with
     | Some e => if truthy_string e then e else "md"
     | None => "md"
     end).

(** [processSortParameter]: the fields whose value is exactly [1] or [-1],
    in the key order of the object. *)
Definition processSortParameter (obj : option (list (string * value)))
    : list (string * Z) :=
  match obj with
  | Some o =>
      omap (λ '(field, sortInteger),
              match sortInteger with
              | VNum n => if ((n =? -1) || (n =? 1))%Z then Some (field, n) else None
              | _ => None
              end) o
  | None => []
  end.

(** *** The [path] module, on paths in normal form *)

Definition path_normalize (p : string) : string := p.

Definition path_join (dir name : string) : string := dir +:+ "/" +:+ name.

(** Split at the last occurrence of [c]. *)
Fixpoint split_last (c : ascii) (s : list ascii) : option (list ascii * list ascii) :=
  match s with
  | [] => None
  | x :: s' =>
      match split_last c s' with
      | Some (a, b) => Some (x :: a, b)
      | None => if Ascii.eqb x c then Some ([], s') else None
      end
  end.

(** [path.parse(p)], as the pair [(name, ext)]. *)
Definition path_parse (p : string) : string * string :=
  let s := list_ascii_of_string p in
  let base := match split_last "/"%char s with Some (_, b) => b | None => s end in
  match split_last "."%char base with
  | Some (x :: a, b) =>
      (string_of_list_ascii (x :: a), string_of_list_ascii ("."%char :: b))
  | _ => (string_of_list_ascii base, "")
  end.

(** *** The two regular expressions *)

(** The object held by [extFilter] in [load]: a RegExp of the modelled
    fragment, or one of the engine's. *)
Inductive ExtFilter (E : RegExpEngine) :=
| Native (R : RegExp)
| Foreign (F : foreign E).
Arguments Native {E} R.
Arguments Foreign {E} F.

(** [new RegExp('.' + extension + '$', 'g')]: the extension is spliced into
    the source of the pattern, so its characters are read as pattern syntax,
    and the construction throws when the result is no pattern. *)
Definition extFilter (E : RegExpEngine) (ext : string)
    : completion (ExtFilter E) :=
  let source := "." +:+ ext +:+ "$" in
  match parse_pattern (list_ascii_of_string source) with
  | Some atoms => Normal (Native (mkRegExp atoms true 0))
  | None => F ← foreign_new E source; Normal (Foreign F)
  end.

(** [extFilter.test(i)]. *)
Definition extFilter_test {E} (f : ExtFilter E) (i : string)
    : bool * ExtFilter E :=
  match f with
  | Native R => let '(b, R') := test R i in (b, Native R')
  | Foreign F => let '(b, F') := foreign_test E F i in (b, Foreign F')
  end.

(** The literal [yamlRegex] of [parseRawDataAsync]: three dashes, [[\n\r]+],
    a group of [[\s\S]] repeated, [[\n\r]+], three dashes, [[\n\r]+], a
    second group of [[\s\S]] repeated; no flag. *)
Definition yamlRegex : RegExp :=
  mkRegExp
    [Lit "-"; Lit "-"; Lit "-"; Plus cls_newline; Group cls_any;
     Plus cls_newline; Lit "-"; Lit "-"; Lit "-"; Plus cls_newline;
     Group cls_any]
    false 0.

(** [listing.filter(i => extFilter.test(i))]: the one RegExp object is
    shared by all the calls of [test]. *)
Fixpoint filter_test {E} (extFilter : ExtFilter E) (listing : list string)
    : list string :=
  match listing with
  | [] => []
  | i :: listing' =>
      let '(b, extFilter') := extFilter_test extFilter i in
      if b then i :: filter_test extFilter' listing'
      else filter_test extFilter' listing'
  end.

(** [readFileAsync]: the name and the contents, or the error of the read. *)
Definition readFileAsync (fs : FileSystem) (filename : string) : completion RawFile :=
  data ← readFile fs filename;
  Normal (mkRawFile filename data).

(** [async.map(filepaths, readFileAsync, cb)]: all the results in the order
    of the paths, or an error (the first one in that order). *)
Fixpoint async_map (fs : FileSystem) (filepaths : list string)
    : completion (list RawFile) :=
  match filepaths with
  | [] => Normal []
  | f :: filepaths' =>
      r ← readFileAsync fs f;
      rest ← async_map fs filepaths';
      Normal (r :: rest)
  end.

(** *** Underscore helpers and the abstract operations of the language *)

(** [a === b] on scalars.  Two Date objects are never the same object. *)
Definition strict_eq (a b : value) : bool :=
  match a, b with
  | VUndefined, VUndefined => true
  | VNull, VNull => true
  | VBool x, VBool y => Bool.eqb x y
  | VNum x, VNum y => (x =? y)%Z
  | VStr x, VStr y => String.eqb x y
  | _, _ => false
  end.

(** [TimeClip]: a time value is valid up to 8.64e15 ms either side of the
    epoch. *)
Definition TimeClip (n : Z) : option Z :=
  if (Z.abs n <=? 8640000000000000)%Z then Some n else None.

(** [_.isMatch(attributes, attrs)]: every key of the predicate object is
    present with a strictly equal value; on [undefined] only the empty
    predicate matches. *)
Definition isMatch_attributes (object : option (gmap string value))
    (attrs : list (string * value)) : bool :=
  match object with
  | None => match attrs with [] => true | _ => false end
  | Some m =>
      forallb (λ '(key, v),
                 match m !! key with
                 | Some w => strict_eq v w
                 | None => false
                 end) attrs
  end.

(** What [post[key]] is for the top-level keys of a post. *)
Inductive property :=
| Absent
| Scalar (v : value)
| Object.

Definition post_property (p : Post) (key : string) : property :=
  if String.eqb key "meta" then Object
  else if String.eqb key "attributes" then
    match attributes p with Some _ => Object | None => Scalar VUndefined end
  else if String.eqb key "original" then Scalar (VStr (original p))
  else if String.eqb key "contentText" then Scalar (VStr (contentText p))
  else if String.eqb key "contentHtml" then Scalar (VStr (contentHtml p))
  else Absent.

(** [_.isMatch(post, attrs)] *)
Definition isMatch_post (p : Post) (attrs : list (string * value)) : bool :=
  forallb (λ '(key, v),
             match post_property p key with
             | Scalar w => strict_eq v w
             | _ => false
             end) attrs.

(** [_.where(posts, attrs)] *)
Definition where_posts (posts : list Post) (attrs : list (string * value)) : list Post :=
  List.filter (λ p, isMatch_post p attrs) posts.

(** [_.where([a], attrs)] *)
Definition where_attributes (l : list (option (gmap string value)))
    (attrs : list (string * value)) : list (option (gmap string value)) :=
  List.filter (λ a, isMatch_attributes a attrs) l.

(** [Array.prototype.sort(comparefn)], as a straight insertion sort.  For a
    comparator that is a total order on the elements, the result is the one
    sorted arrangement whatever the algorithm. *)
Fixpoint insert_by {A} (comparefn : A → A → Z) (x : A) (l : list A) : list A :=
  match l with
  | [] => [x]
  | y :: l' =>
      if (comparefn x y <=? 0)%Z then x :: l else y :: insert_by comparefn x l'
  end.

Definition array_sort {A} (comparefn : A → A → Z) (l : list A) : list A :=
  foldr (insert_by comparefn) [] l.

(** [Array.prototype.slice(start, end)], for integer arguments. *)
Definition relative_index (len k : Z) : Z :=
  if (k <? 0)%Z then Z.max (len + k) 0 else Z.min k len.

Definition slice {A} (l : list A) (start end_ : Z) : list A :=
  let len := Z.of_nat (length l) in
  let from := relative_index len start in
  let to := relative_index len end_ in
  take (Z.to_nat (to - from)) (drop (Z.to_nat from) l).

(** The object [{value, index, criteria}] that [_.sortBy] sorts. *)
Record Decorated := mkDecorated {
  d_value : Post;
  d_index : nat;
  d_criteria : value
}.

Section Provider.

(** The regular-expression engine of the runtime, for the patterns outside
    the modelled fragment; the libraries the provider calls: [yaml.safeLoad],
    [marked], and the two implementation-defined conversions of the
    language, [Date.parse] and the numeric value of a string ([None] is
    [NaN]). *)
Variable E : RegExpEngine.
Variable safeLoad : string → completion (option (gmap string value)).
Variable marked : string → string.
Variable dateParse : string → option Z.
Variable stringToNumber : string → option Z.

Definition ToNumber (v : value) : option Z :=
  match v with
  | VUndefined => None
  | VNull => Some 0%Z
  | VBool b => Some (if b then 1 else 0)%Z
  | VNum n => Some n
  | VStr s => stringToNumber s
  | VDate t => Some t
  end.

(** [a < b] and [a > b]: two strings compare by code units, anything else
    by numeric value, and a comparison with [NaN] is false. *)
Definition js_lt (a b : value) : bool :=
  match a, b with
  | VStr x, VStr y => String.ltb x y
  | _, _ =>
      match ToNumber a, ToNumber b with
      | Some x, Some y => (x <? y)%Z
      | _, _ => false
      end
  end.

Definition js_gt (a b : value) : bool := js_lt b a.

(** The time value of [new Date(v)]; [None] is an Invalid Date. *)
Definition new_Date (v : value) : option Z :=
  match v with
  | VUndefined => None
  | VNull => TimeClip 0
  | VBool b => TimeClip (if b then 1 else 0)
  | VNum n => TimeClip n
  | VStr s => dateParse s ≫= TimeClip
  | VDate t => TimeClip t
  end.

(** The comparator of [_.sortBy]. *)
Definition compare_criteria (left right : Decorated) : Z :=
  let a := d_criteria left in
  let b := d_criteria right in
  let by_index := (Z.of_nat (d_index left) - Z.of_nat (d_index right))%Z in
  if negb (strict_eq a b) then
    if js_gt a b || strict_eq a VUndefined then 1%Z
    else if js_lt a b || strict_eq b VUndefined then (-1)%Z
    else by_index
  else by_index.

(** The [_.map] of [_.sortBy]: decorate every post, counting from [index]. *)
Fixpoint decorate (iteratee : Post → completion value) (index : nat)
    (posts : list Post) : completion (list Decorated) :=
  match posts with
  | [] => Normal []
  | p :: posts' =>
      c ← iteratee p;
      rest ← decorate iteratee (S index) posts';
      Normal (mkDecorated p index c :: rest)
  end.

(** [_.sortBy(posts, iteratee)] *)
Definition sortBy (posts : list Post) (iteratee : Post → completion value)
    : completion (list Post) :=
  ds ← decorate iteratee 0 posts;
  Normal (map d_value (array_sort compare_criteria ds)).

(** The iteratee of [load]: the time value of the attribute when it is a
    valid date, the attribute itself otherwise.  Reading a property of an
    [undefined] [attributes] throws. *)
Definition sort_iteratee (field : string) (post : Post) : completion value :=
  match attributes post with
  | None =>
      Throw (TypeError ("Cannot read property '" +:+ field +:+ "' of undefined"))
  | Some m =>
      let value := default VUndefined (m !! field) in
      Normal (match new_Date value with
              | Some t => VNum t
              | None => value
              end)
  end.

(** [post.attributes[field]], when [attributes] is a mapping. *)
Definition sort_value (field : string) (post : Post) : option value :=
  (λ m : gmap string value, default VUndefined (m !! field)) <$> attributes post.

(** The time value the iteratee finds in a post for [field], if any. *)
Definition date_of (field : string) (post : Post) : option Z :=
  sort_value field post ≫= new_Date.

(** The numeric criterion of a decorated post ([0] when it is not a number). *)
Definition criteria_number (d : Decorated) : Z :=
  match d_criteria d with
  | VNum n => n
  | _ => 0%Z
  end.

(** The order the comparator of [_.sortBy] puts on criteria that are numbers
    or [undefined]: numbers by value, [undefined] after every number. *)
Definition criteria_le (x y : Decorated) : Prop :=
  d_criteria y = VUndefined ∨
  (d_criteria x ≠ VUndefined ∧ (criteria_number x ≤ criteria_number y)%Z).

Definition number_or_undefined (d : Decorated) : Prop :=
  d_criteria d = VNum (criteria_number d) ∨ d_criteria d = VUndefined.

(** What the decoration knows of a post: its criterion is the time value of
    its date, or it has no date and its criterion is [undefined]. *)
Definition decorated_for (field : string) (d : Decorated) : Prop :=
  (d_criteria d = VNum (criteria_number d) ∧
   date_of field (d_value d) = Some (criteria_number d)) ∨
  (d_criteria d = VUndefined ∧ date_of field (d_value d) = None).

(** [Object.keys(sort).forEach(...)]: one sort per field, reversed when the
    direction is [-1]. *)
Fixpoint sort_posts (sort : list (string * Z)) (posts : list Post)
    : completion (list Post) :=
  match sort with
  | [] => Normal posts
  | (field, direction) :: sort' =>
      sorted ← sortBy posts (sort_iteratee field);
      sort_posts sort'
        (if (direction =? -1)%Z then reverse sorted else sorted)
  end.

(** *** parseRawDataAsync *)

(** [bits[i] || ''] *)
Definition or_empty (bits : list string) (i : nat) : string :=
  default "" (bits !! i).

(** The body of the [for] loop, for one file.  [exec] returns [null] when
    the pattern is nowhere in the contents, and [bits[1]] then throws. *)
Definition parse_file (d : RawFile) : completion Post :=
  match (exec yamlRegex (_contents d)).1 with
  | None => Throw (TypeError "Cannot read property '1' of null")
  | Some bits =>
      attributes ← safeLoad (or_empty bits 1);
      let contentText := or_empty bits 2 in
      let contentHtml := marked contentText in
      let parsedPath := path_parse (_name d) in
      let meta := mkMeta (_name d) parsedPath.2 parsedPath.1 in
      Normal (mkPost meta attributes (_contents d) contentText contentHtml)
  end.

(** The loop: the posts pushed so far are [posts]. *)
Fixpoint parse_loop (data : list RawFile) (posts : list Post)
    : completion (list Post) :=
  match data with
  | [] => Normal posts
  | d :: data' =>
      post ← parse_file d;
      parse_loop data' (posts ++ [post])
  end.

Definition parseRawDataAsync {R} (data : list RawFile)
    (callback : list Post → completion R) : completion R :=
  posts ← parse_loop data [];
  callback posts.

(** *** Collaborators that are not part of the two files *)

(** Modelled from the spec: the pagination metadata helper, called as
    [meta(options, total)] with [options.page] and [options.limit]; it
    computes the page, the limit, the total count, the number of pages
    [ceil(totalCount / limit)] and the previous and next page. *)
Definition meta_helper (page limit total : Z) : PaginationMetadata :=
  let pages := (- ((- total) / limit))%Z in
  mkPaginationMetadata page limit total pages
    (if (1 <? page)%Z then Some (page - 1)%Z else None)
    (if (page <? pages)%Z then Some (page + 1)%Z else None).

(** Split at the first occurrence of [c]. *)
Fixpoint split_first (c : ascii) (s : list ascii) : option (list ascii * list ascii) :=
  match s with
  | [] => None
  | x :: s' =>
      if Ascii.eqb x c then Some ([], s')
      else match split_first c s' with
           | Some (a, b) => Some (x :: a, b)
           | None => None
           end
  end.

Definition attribute (a : option (gmap string value)) (key : string) : value :=
  match a with
  | Some m => default VUndefined (m !! key)
  | None => VUndefined
  end.

Definition meta_property (m : Meta) (key : string) : value :=
  if String.eqb key "location" then VStr (location m)
  else if String.eqb key "extension" then VStr (extension m)
  else if String.eqb key "handle" then VStr (handle m)
  else VUndefined.

(** Modelled from the spec: the value of one requested field of a post, a
    top-level field or a dotted path into [attributes] or [meta]. *)
Definition select_field (p : Post) (field : string) : field_value :=
  match split_first "."%char (list_ascii_of_string field) with
  | None =>
      if String.eqb field "meta" then FMeta (meta p)
      else if String.eqb field "attributes" then FAttributes (attributes p)
      else match post_property p field with
           | Scalar v => FScalar v
           | _ => FScalar VUndefined
           end
  | Some (top, rest) =>
      let top := string_of_list_ascii top in
      let rest := string_of_list_ascii rest in
      if String.eqb top "attributes" then FScalar (attribute (attributes p) rest)
      else if String.eqb top "meta" then FScalar (meta_property (meta p) rest)
      else FScalar VUndefined
  end.

(** Modelled from the spec: the field selection mixin [selectFields], which
    replaces each record with an object containing only the requested
    fields. *)
Definition selectFields (fields : list string) (posts : list Post) : list Item :=
  map (λ p, Projected (map (λ f, (f, select_field p f)) fields)) posts.

(** *** load *)

(** [parseInt] of a number that is an integer. *)
Definition parseInt (n : Z) : Z := n.

(** [posts = _.where(posts, search)] when [search] is given (lines 76-78). *)
Definition search_step (this : Provider) (posts : list Post) : list Post :=
  match ds_search (schema this) with
  | Some search => where_posts posts search
  | None => posts
  end.

(** The [_.filter] on [attributes] when [filter] is given (lines 80-84). *)
Definition filter_step (this : Provider) (posts : list Post) : list Post :=
  match ds_filter (schema this) with
  | Some filter =>
      List.filter
        (λ post, 0 <? length (where_attributes [attributes post] filter)) posts
  | None => posts
  end.

(** [schema.datasource.page || 1] *)
Definition page_or_1 (this : Provider) : Z :=
  match ds_page (schema this) with
  | Some page => if (page =? 0)%Z then 1%Z else page
  | None => 1%Z
  end.

(** Lines 104-115: [if (page && count)], the slice and the metadata; the
    result is the new [posts] and the new [metadata]. *)
Definition paginate (this : Provider) (postCount : nat) (posts : list Post)
    (metadata : metadata_value) : list Post * metadata_value :=
  let page := page_or_1 this in
  let count := ds_count (schema this) in
  if negb (page =? 0)%Z && truthy_num count then
    let count := default 0%Z count in
    let offset := ((page - 1) * count)%Z in
    (slice posts offset (offset + count)%Z,
     MObject (meta_helper (parseInt page) (parseInt count)
                (parseInt (Z.of_nat postCount))))
  else (posts, metadata).

(** Lines 117-119: the field selection, when [fields] is not empty. *)
Definition project (this : Provider) (posts : list Post) : list Item :=
  match default [] (ds_fields (schema this)) with
  | [] => map Record_ posts
  | fields => selectFields fields posts
  end.

(** The callback handed to [parseRawDataAsync] (lines 66 to 122): search,
    filter, sort, paginate, project, then [done(null, {results, metadata})]. *)
Definition load_callback (this : Provider) (posts : list Post) : completion outcome :=
  let sort := processSortParameter (ds_sort (schema this)) in
  let metadata := MEmptyArray in
  let posts := search_step this posts in
  let posts := filter_step this posts in
  let postCount := length posts in
  posts ← sort_posts sort posts;
  let '(posts, metadata) := paginate this postCount posts metadata in
  let posts := project this posts in
  Normal (Done None (Some (mkEnvelope posts (or_null metadata)))).

(** Where a callback runs: inside the [try] block of [load], or from the
    event loop in a later turn, after [load] has returned. *)
Inductive context :=
| InTry
| LaterTurn.

(** An exception thrown inside the [try] reaches [catch (ex) { done(ex, null) }];
    one thrown in a later turn has no handler. *)
Definition settle (ctx : context) (c : completion outcome) : outcome :=
  match c with
  | Normal o => o
  | Throw ex =>
      match ctx with
      | InTry => Done (Some ex) None
      | LaterTurn => Uncaught ex
      end
  end.

(** [load].  [new RegExp] and [readdirSync] run inside the [try], so what
    they throw is handed to [done].  [async.map] calls its final callback at
    once for an empty array and from the callback of the last [fs.readFile]
    otherwise. *)
Definition load (this : Provider) (fs : FileSystem) : outcome :=
  let sourcePath := path_normalize (source_path (schema this)) in
  match extFilter E (this_extension this) with
  | Throw ex => Done (Some ex) None
  | Normal extFilter =>
      match readdirSync fs sourcePath with
      | Throw ex => Done (Some ex) None
      | Normal listing =>
          let filenames := filter_test extFilter listing in
          let filepaths := map (path_join sourcePath) filenames in
          let ctx :=
            match filepaths with [] => InTry | _ :: _ => LaterTurn end in
          match async_map fs filepaths with
          | Throw err => Done (Some err) None
          | Normal readResults =>
              settle ctx (parseRawDataAsync readResults (load_callback this))
          end
      end
  end.

End Provider.

End MarkdownProvider.

(** ** dadi/lib/view/index.js *)

Module View.
Import Js.

(** [page.postProcessors]: the value [false], or an array of script names. *)
Inductive postProcessors_value :=
| PPFalse
| PPArray (scripts : list string).

Record Page := mkPage {
  hostKey : string;
  keepWhitespace : bool;
  postProcessors : postProcessors_value;
  globalPostProcessors : option (list string)
}.

(** An argument of [done]. *)
Inductive argument :=
| AUndefined
| ANull
| AString (s : string).

(** [done(err, processed, raw)]: the arguments the callback was invoked
    with. *)
Record done_call := mkDone {
  done_err : option Error;
  done_processed : argument;
  done_raw : argument
}.

Section View.

(** The view data, an object shared with the post-processors. *)
Variable Data : Type.

(** One call of a post-processor, [f(this.data, raw)]: the script, and the
    two arguments it received. *)
Record Invocation := mkInvocation {
  inv_script : string;
  inv_data : Data;
  inv_output : string
}.

(** [require(path.resolve(config.get('paths.processors'), script))]: the
    function the script exports (loading may throw).  A post-processor
    receives the data object and a string; it may change the object, and
    returns a string or throws. *)
Variable require : string → completion (Data → string → Data * completion string).

(** [template.render(templateData, {keepWhitespace})], where [templateData]
    is the data with [host] added: the raw output, or a rejection. *)
Variable template_render : Data → string → bool → completion string.

Record View := mkView {
  page : Page;
  data : Data
}.

Definition setData (this : View) (d : Data) : View := mkView (page this) d.

(** The [for] loop of [render] (lines 46-51): [processed] is assigned the
    result of each script applied to the data and to [raw].  The result is
    the data object after the calls, the calls made, and the last value of
    [processed] or the exception that ended the loop. *)
Fixpoint run_postProcessors (scripts : list string) (d : Data) (raw processed : string)
    (log : list Invocation) : Data * list Invocation * completion string :=
  match scripts with
  | [] => (d, log, Normal processed)
  | script :: scripts' =>
      match require script with
      | Throw err => (d, log, Throw err)
      | Normal f =>
          let log' := log ++ [mkInvocation script d raw] in
          match f d raw with
          | (d', Throw err) => (d', log', Throw err)
          | (d', Normal out) => run_postProcessors scripts' d' raw out log'
          end
      end
  end.

Definition postProcessors_ (this : View) : postProcessors_value :=
  postProcessors (page this).

(** [v !== false] is [negb (is_false v)]. *)
Definition is_false (v : postProcessors_value) : bool :=
  match v with PPFalse => true | PPArray _ => false end.

(** The handler of [.catch]: mark the error and report it. *)
Definition on_rejected (err : Error) : done_call :=
  mkDone (Some (mkError (err_name err) (err_message err) (Some 500%Z)))
    ANull AUndefined.

(** [render]: the view after the call (its data may have been changed by
    the post-processors), the post-processor calls made, and the call of
    [done]. *)
Definition render (this : View) : View * list Invocation * done_call :=
  match template_render (data this) (hostKey (page this)) (keepWhitespace (page this)) with
  | Throw err => (this, [], on_rejected err)
  | Normal raw =>
      let processed := raw in
      match postProcessors_ this with
      | PPFalse =>
          (* false.concat is not a function: the promise is rejected *)
          (this, [],
           on_rejected (TypeError "this.page.postProcessors.concat is not a function"))
      | PPArray own =>
          let postProcessors := own ++ default [] (globalPostProcessors (page this)) in
          if (0 <? length postProcessors) && negb (is_false (postProcessors_ this)) then
            match run_postProcessors postProcessors (data this) raw processed [] with
            | (d, log, Throw err) =>
                (setData this d, log, mkDone (Some err) AUndefined AUndefined)
            | (d, log, Normal processed) =>
                (setData this d, log, mkDone None (AString processed) (AString raw))
            end
          else (this, [], mkDone None (AString processed) (AString raw))
      end
  end.

End View.

End View.

(** ** Concrete collaborators for the examples

    Small stand-ins for the libraries the theorems are parametric in, and an
    in-memory file system. *)

Module Examples.
Import Js MarkdownProvider.

Definition digit (c : ascii) : option Z :=
  let n := Z.of_nat (nat_of_ascii c) in
  if ((48 <=? n) && (n <=? 57))%Z then Some (n - 48)%Z else None.

(** The decimal number written by a list of digits, after [acc]. *)
Fixpoint decimal (acc : Z) (s : list ascii) : option Z :=
  match s with
  | [] => Some acc
  | c :: s' =>
      match digit c with
      | Some d => decimal (10 * acc + d)%Z s'
      | None => None
      end
  end.

(** The numeric value of a string of digits; the empty string is [0]. *)
Definition digits_to_number (s : string) : option Z :=
  decimal 0 (list_ascii_of_string s).

(** Days from 1970-01-01 to the civil date [y-m-d] (proleptic Gregorian). *)
Definition days_from_civil (y m d : Z) : Z :=
  let y' := (if m <=? 2 then y - 1 else y)%Z in
  let era := (y' / 400)%Z in
  let yoe := (y' - era * 400)%Z in
  let doy := ((153 * (if 2 <? m then m - 3 else m + 9) + 2) / 5 + d - 1)%Z in
  let doe := (yoe * 365 + yoe / 4 - yoe / 100 + doy)%Z in
  (era * 146097 + doe - 719468)%Z.

(** A [Date.parse] for the date-only ISO form [YYYY-MM-DD]. *)
Definition iso_date_parse (s : string) : option Z :=
  match list_ascii_of_string s with
  | [y1; y2; y3; y4; "-"%char; m1; m2; "-"%char; d1; d2] =>
      y ← decimal 0 [y1; y2; y3; y4];
      m ← decimal 0 [m1; m2];
      d ← decimal 0 [d1; d2];
      if ((1 <=? m) && (m <=? 12) && (1 <=? d) && (d <=? 31))%Z
      then Some (days_from_civil y m d * 86400000)%Z
      else None
  | _ => None
  end.

(** Split a text into its lines. *)
Fixpoint lines (cur : list ascii) (s : list ascii) : list (list ascii) :=
  match s with
  | [] => [cur]
  | c :: s' =>
      if Ascii.eqb c "010"%char then cur :: lines [] s'
      else lines (cur ++ [c]) s'
  end.

Definition strip_space (s : list ascii) : list ascii :=
  match s with
  | " "%char :: s' => s'
  | _ => s
  end.

(** The scalar a flat YAML value denotes: an integer, a timestamp, or a
    string. *)
Definition flat_scalar (s : list ascii) : value :=
  match s with
  | [] => VNull
  | _ =>
      match decimal 0 s with
      | Some n => VNum n
      | None =>
          match iso_date_parse (string_of_list_ascii s) with
          | Some t => VDate t
          | None => VStr (string_of_list_ascii s)
          end
      end
  end.

Definition YAMLException (msg : string) : Error := mkError "YAMLException" msg None.

Fixpoint flat_pairs (ls : list (list ascii)) (m : gmap string value)
    : completion (gmap string value) :=
  match ls with
  | [] => Normal m
  | [] :: ls' => flat_pairs ls' m
  | l :: ls' =>
      match split_first ":"%char l with
      | Some (k, v) =>
          flat_pairs ls' (<[string_of_list_ascii k := flat_scalar (strip_space v)]> m)
      | None => Throw (YAMLException "can not read an implicit mapping pair")
      end
  end.

(** A loader for flat documents of [key: value] lines.  The empty document
    loads as [undefined]; a line without a colon is reported as an
    exception. *)
Definition flat_yaml (text : string) : completion (option (gmap string value)) :=
  match text with
  | EmptyString => Normal None
  | _ =>
      m ← flat_pairs (lines [] (list_ascii_of_string text)) ∅;
      Normal (Some m)
  end.

(** A Markdown renderer for one-paragraph bodies. *)
Definition paragraph (text : string) : string := "<p>" +:+ text +:+ "</p>".

Definition ENOENT (p : string) : Error :=
  mkError "Error" ("ENOENT: no such file or directory, " +:+ p) None.

Fixpoint lookup_file (files : list (string * string)) (p : string) : completion string :=
  match files with
  | [] => Throw (ENOENT p)
  | (name, contents) :: files' =>
      if String.eqb name p then Normal contents else lookup_file files' p
  end.

(** A file system with the one directory [dir], holding [files] (name and
    contents) in listing order. *)
Definition directory (dir : string) (files : list (string * string)) : FileSystem :=
  mkFileSystem
    (λ p, if String.eqb p dir then Normal (map fst files) else Throw (ENOENT p))
    (lookup_file (map (λ '(name, contents), (path_join dir name, contents)) files)).

Definition nl : string := String "010"%char EmptyString.

(** A document with front matter [front] and body [body]. *)
Definition document (front body : string) : string :=
  "---" +:+ nl +:+ front +:+ nl +:+ "---" +:+ nl +:+ body.

(** The post parsed from a file [name] of directory [posts] whose front
    matter holds the one attribute [key]. *)
Definition sample_post (name key : string) (v : value) : Post :=
  mkPost (mkMeta (path_join "posts" name) ".md" name) (Some {[ key := v ]})
    "" "" "".

(** Twenty-five posts, numbered from 0. *)
Definition posts25 : list Post :=
  map (λ i, sample_post "post" "n" (VNum (Z.of_nat i))) (seq 0 25).

(** A datasource over [dir] with nothing else set. *)
Definition plain (dir : string) : Datasource :=
  mkDatasource dir None None None None None None None.

(** A directory of three well-formed posts; the names grow by three
    characters so that the extension filter selects all of them. *)
Definition three_posts : FileSystem :=
  directory "posts"
    [("a.md", document "title: A" "first");
     ("bbbb.md", document "title: B" "second");
     ("ccccccc.md", document "title: C" "third")].

Definition with_count (count : Z) : Provider :=
  initialise (mkDatasource "posts" None None None (Some count) None None None).

(** A post without [date], and three posts whose [date] is a date string, a
    date string and a number of milliseconds; in time order these are the
    third, the fourth, the second. *)
Definition dated_posts : list Post :=
  [sample_post "undated" "title" (VStr "No date");
   sample_post "y2021" "date" (VStr "2021-01-01");
   sample_post "y2020" "date" (VStr "2020-01-01");
   sample_post "sep2020" "date" (VNum 1600000000000)].

(** A view whose data is a counter of the post-processor calls made. *)
Definition upper_case : nat → string → nat * completion string :=
  λ n raw, (S n, Normal ("UPPER(" +:+ raw +:+ ")")).

Definition minify : nat → string → nat * completion string :=
  λ n raw, (S n, Normal ("MIN(" +:+ raw +:+ ")")).

Definition failing : nat → string → nat * completion string :=
  λ n raw, (S n, Throw (mkError "Error" "processor failed" None)).

Definition processors (script : string)
    : completion (nat → string → nat * completion string) :=
  if String.eqb script "upper" then Normal upper_case
  else if String.eqb script "minify" then Normal minify
  else if String.eqb script "failing" then Normal failing
  else Throw (mkError "Error" ("Cannot find module " +:+ script) None).

Definition echo_template (d : nat) (host : string) (keepWhitespace : bool)
    : completion string :=
  Normal ("<html>" +:+ host +:+ "</html>").

Definition view_with (scripts : list string) : View.View nat :=
  View.mkView nat (View.mkPage "site" false (View.PPArray scripts) None) 0.

(** Posts with equal dates: the first and the third share a date, the
    second is later, the fourth has no date. *)
Definition tied_posts : list Post :=
  [sample_post "first" "date" (VStr "2020-01-01");
   sample_post "later" "date" (VStr "2021-01-01");
   sample_post "third" "date" (VStr "2020-01-01");
   sample_post "undated" "title" (VStr "No date")].

(** A post with the two attributes [date] and [rank]. *)
Definition ranked_post (name date : string) (rank : Z) : Post :=
  mkPost (mkMeta (path_join "posts" name) ".md" name)
    (Some {[ "date" := VStr date; "rank" := VNum rank ]}) "" "" "".

Definition ranked_posts : list Post :=
  [ranked_post "b2" "2021-01-01" 2;
   ranked_post "a1" "2020-01-01" 1;
   ranked_post "a2" "2020-01-01" 2;
   ranked_post "b1" "2021-01-01" 1].

(** A post whose front matter was loaded as [undefined]. *)
Definition bare_post (name : string) : Post :=
  mkPost (mkMeta (path_join "posts" name) ".md" name) None "" "" "".

(** A provider over [posts] with a count and a page. *)
Definition paged (count : Z) (page : option Z) : Provider :=
  initialise (mkDatasource "posts" None None None (Some count) None None page).

(** A provider over [posts] with a search predicate. *)
Definition searching (search : list (string * value)) : Provider :=
  initialise (mkDatasource "posts" None None (Some search) None None None None).

(** An engine with no pattern beyond the modelled fragment: for any other
    source the construction throws.  It is used with extensions of ordinary
    characters and with the extension [(], whose pattern opens a group that
    is never closed. *)
Definition strict_engine : RegExpEngine :=
  mkRegExpEngine unit
    (λ source,
       Throw (SyntaxError ("Invalid regular expression: /" +:+ source +:+ "/")))
    (λ F _, (false, F)).

(** A provider over [posts] for the files of extension [ext]. *)
Definition with_extension (ext : string) : Provider :=
  initialise (mkDatasource "posts" (Some ext) None None None None None None).

(** Two dated posts, the later one first, with a post between them whose
    [date] is no date. *)
Definition mixed_posts : list Post :=
  [sample_post "y2021" "date" (VStr "2021-01-01");
   sample_post "junk" "date" (VStr "zzz");
   sample_post "y2020" "date" (VStr "2020-01-01")].

(** A view whose page has [postProcessors] set to [false]. *)
Definition view_disabled : View.View nat :=
  View.mkView nat (View.mkPage "site" false View.PPFalse (Some ["upper"])) 0.

End Examples.

(** ** The constructor of the view *)

Module ViewConstructor.
Import Js.

(** [s.indexOf(c)]: the index of the first [c], or [-1]. *)
Fixpoint indexOf_from (c : ascii) (s : list ascii) (i : Z) : Z :=
  match s with
  | [] => (-1)%Z
  | x :: s' => if Ascii.eqb x c then i else indexOf_from c s' (i + 1)%Z
  end.

Definition indexOf (s : string) (c : ascii) : Z :=
  indexOf_from c (list_ascii_of_string s) 0.

(** [String.prototype.slice(start, end)]: the indices are taken as by
    [Array.prototype.slice]. *)
Definition string_slice (s : string) (start end_ : Z) : string :=
  string_of_list_ascii (MarkdownProvider.slice (list_ascii_of_string s) start end_).

(** Lines 15-17: [page.hostKey + page.template.slice(0, page.template.indexOf('.'))]. *)
Definition templateName (hostKey template : string) : string :=
  hostKey +:+ string_slice template 0 (indexOf template "."%char).

End ViewConstructor.

(** ** Plain descriptions the code is compared with *)

Module Reference.
Import Js MarkdownProvider.

(** [s] is one character that is not a line terminator, then [ext]. *)
Definition head_matches (ext s : list ascii) : bool :=
  match s with
  | c :: t => negb (is_line_terminator c) && bool_decide (t = ext)
  | [] => false
  end.

(** [name] ends with a character that is not a line terminator followed by
    the extension. *)
Definition ends_with_ext (ext name : string) : bool :=
  let e := list_ascii_of_string ext in
  let s := list_ascii_of_string name in
  (S (length e) <=? length s) && head_matches e (drop (length s - S (length e)) s).

(** [name] ends so, and that ending starts at index [li] or later. *)
Definition selected_from (ext : string) (li : nat) (name : string) : bool :=
  ends_with_ext ext name
  && (li + S (length (list_ascii_of_string ext)) <=? length (list_ascii_of_string name)).

(** The names a listing keeps when the search in each name starts where the
    match in the last kept name ended, and at 0 after a rejected name. *)
Fixpoint selection (ext : string) (li : nat) (listing : list string) : list string :=
  match listing with
  | [] => []
  | name :: listing' =>
      if selected_from ext li name
      then name :: selection ext (length (list_ascii_of_string name)) listing'
      else selection ext 0 listing'
  end.

(** An extension without syntax characters, and the pattern it is expected
    to give: the dot, the characters of the extension, the end of the name. *)
Definition ordinary (ext : string) : Prop :=
  Forall (λ c, syntax_character c = false) (list_ascii_of_string ext).

Definition ordinary_filter (ext : string) : RegExp :=
  mkRegExp ([Dot] ++ map Lit (list_ascii_of_string ext) ++ [Eos]) true 0.

(** The elements of [l] at the indices [i] with [from <= i < to], counting
    from [index]. *)
Fixpoint index_range_from {A} (index : Z) (l : list A) (from to : Z) : list A :=
  match l with
  | [] => []
  | x :: l' =>
      if bool_decide (from ≤ index < to)%Z
      then x :: index_range_from (index + 1) l' from to
      else index_range_from (index + 1) l' from to
  end.

(** The index range [[from, to)] of [l]. *)
Definition index_range {A} (l : list A) (from to : Z) : list A :=
  index_range_from 0 l from to.

(** A text starts with a line break. *)
Definition leading_newline (s : string) : bool :=
  match s with
  | String c _ => is_line_terminator c
  | EmptyString => false
  end.

(** A non-empty run of line breaks. *)
Definition newlines (s : string) : Prop :=
  s ≠ "" ∧ Forall (λ c, is_line_terminator c = true) (list_ascii_of_string s).

(** A run of line breaks as a list of characters. *)
Definition newline_run (n : list ascii) : Prop :=
  n ≠ [] ∧ Forall (λ c, is_line_terminator c = true) n.

(** The three dashes of a front-matter boundary. *)
Definition dashes : list ascii := ["-"; "-"; "-"]%char.

(** The place of a decorated post in the order of [_.sortBy], when its
    criterion is a number or [undefined]: numbers first and by value,
    [undefined] after them, and the index of the post last. *)
Definition sort_key (d : Decorated) : Z * Z * Z :=
  (match d_criteria d with VUndefined => 1 | _ => 0 end,
   criteria_number d,
   Z.of_nat (d_index d))%Z.

Definition key_le (x y : Z * Z * Z) : Prop :=
  (x.1.1 < y.1.1 ∨
   (x.1.1 = y.1.1 ∧ (x.1.2 < y.1.2 ∨ (x.1.2 = y.1.2 ∧ x.2 ≤ y.2))))%Z.

Definition decorated_le (x y : Decorated) : Prop :=
  key_le (sort_key x) (sort_key y).

(** The sort value of a post is a valid date or is missing. *)
Definition sortable (dateParse : string → option Z) (field : string) (p : Post) : Prop :=
  is_Some (date_of dateParse field p) ∨ sort_value field p = Some VUndefined.

(** Two posts that stand at the indices [i] and [j] of the input are in
    ascending order: by time value, a post without one last, and by index
    when that does not decide. *)
Definition in_order (ta tb : option Z) (i j : nat) : Prop :=
  match ta, tb with
  | Some x, Some y => (x < y)%Z ∨ (x = y ∧ i < j)
  | Some _, None => True
  | None, Some _ => False
  | None, None => i < j
  end.

(** A time value is not after another one; a missing one counts as last. *)
Definition not_after (ta tb : option Z) : Prop :=
  match ta, tb with
  | Some x, Some y => (x ≤ y)%Z
  | None, Some _ => False
  | _, None => True
  end.

(** The provider [this] with another [page] in its datasource. *)
Definition with_page (this : Provider) (page : option Z) : Provider :=
  let ds := schema this in
  mkProvider
    (mkDatasource (source_path ds) (source_extension ds) (ds_sort ds) (ds_search ds)
       (ds_count ds) (ds_fields ds) (ds_filter ds) page)
    (this_extension this).

(** The elements at the even positions of a list. *)
Fixpoint evens {A} (l : list A) : list A :=
  match l with
  | x :: _ :: l' => x :: evens l'
  | _ => l
  end.

End Reference.

(** ** Properties of the provider *)

Module MarkdownProviderFacts.
Import Js MarkdownProvider Examples Reference.

Section Facts.

Context (engine : RegExpEngine).
Context (safeLoad : string → completion (option (gmap string value))).
Context (marked : string → string).
Context (dateParse stringToNumber : string → option Z).

Local Abbreviation parse_file := (parse_file safeLoad marked).
Local Abbreviation parse_loop := (parse_loop safeLoad marked).
Local Abbreviation sort_posts := (sort_posts dateParse stringToNumber).
Local Abbreviation sortBy := (sortBy stringToNumber).
Local Abbreviation sort_iteratee := (sort_iteratee dateParse).
Local Abbreviation load_callback := (load_callback dateParse stringToNumber).
Local Abbreviation load := (load engine safeLoad marked dateParse stringToNumber).

(** *** How [load] reaches its callback *)

Lemma bind_Normal_inv {A B} (c : completion A) (k : A → completion B) (b : B) :
  c ≫= k = Normal b → ∃ a, c = Normal a ∧ k a = Normal b.
Proof. destruct c as [a|e]; simpl; [eauto | discriminate]. Qed.

Lemma bind_Throw_inv {A B} (c : completion A) (k : A → completion B) (e : Error) :
  c ≫= k = Throw e → c = Throw e ∨ ∃ a, c = Normal a ∧ k a = Throw e.
Proof. destruct c as [a|e']; simpl; [eauto | intros [= ->]; auto]. Qed.

Lemma settle_Done_inv ctx c env :
  settle ctx c = Done None (Some env) → c = Normal (Done None (Some env)).
Proof. destruct c as [o|ex]; simpl; [congruence | destruct ctx; discriminate]. Qed.

(** A successful [load] is a successful run of the callback on the parsed
    posts of the selected files. *)
Lemma load_Done_inv this fs env :
  load this fs = Done None (Some env) →
  ∃ f listing raw posts,
    extFilter engine (this_extension this) = Normal f ∧
    readdirSync fs (path_normalize (source_path (schema this))) = Normal listing ∧
    async_map fs (map (path_join (path_normalize (source_path (schema this))))
                    (filter_test f listing)) = Normal raw ∧
    parse_loop raw [] = Normal posts ∧
    load_callback this posts = Normal (Done None (Some env)).
Proof.
  unfold load.
  destruct (extFilter engine _) as [f|ex] eqn:Hnew; [|discriminate].
  destruct (readdirSync fs _) as [listing|ex] eqn:Hdir; [|discriminate].
  destruct (async_map fs _) as [raw|ex] eqn:Hread; [|discriminate].
  intros H%settle_Done_inv. unfold parseRawDataAsync in H.
  apply bind_Normal_inv in H as (posts & Hparse & Hcb).
  exists f, listing, raw, posts. auto.
Qed.

(** What the callback reports: the sorted posts, paginated and projected. *)
Lemma load_callback_Normal_inv this posts o :
  load_callback this posts = Normal o →
  ∃ sorted,
    sort_posts (processSortParameter (ds_sort (schema this)))
      (filter_step this (search_step this posts)) = Normal sorted ∧
    let paged :=
      paginate this (length (filter_step this (search_step this posts))) sorted MEmptyArray in
    o = Done None (Some (mkEnvelope (project this paged.1) (or_null paged.2))).
Proof.
  unfold load_callback. intros H.
  apply bind_Normal_inv in H as (sorted & Hsort & H).
  exists sorted. split; [done|]. simpl.
  destruct (paginate _ _ _ _) as [ps md]. simpl in *. congruence.
Qed.

Lemma load_callback_sorted this posts sorted :
  sort_posts (processSortParameter (ds_sort (schema this)))
    (filter_step this (search_step this posts)) = Normal sorted →
  let paged :=
    paginate this (length (filter_step this (search_step this posts))) sorted MEmptyArray in
  load_callback this posts
  = Normal (Done None (Some (mkEnvelope (project this paged.1) (or_null paged.2)))).
Proof.
  intros Hsort. unfold load_callback. rewrite Hsort. simpl.
  destruct (paginate _ _ _ _) as [ps md]. reflexivity.
Qed.


(** *** The front-matter parser *)

(** A document in which the pattern is nowhere found makes the loop body
    throw: [exec] returns [null] and [bits[1]] is a property read on it. *)
Lemma parse_file_no_match d :
  (exec yamlRegex (_contents d)).1 = None →
  parse_file d = Throw (TypeError "Cannot read property '1' of null").
Proof. unfold parse_file. intros ->. reflexivity. Qed.

(** An exception of the loop body ends [parseRawDataAsync] before the
    callback is called. *)
Lemma parse_loop_first_throws d data posts e :
  parse_file d = Throw e → parse_loop (d :: data) posts = Throw e.
Proof. simpl. intros ->. reflexivity. Qed.

(** A text without any dash holds no front-matter boundary. *)
Lemma scan_no_first_char c r s :
  Forall (λ x, x ≠ c) s → scan (Lit c :: r) s = None.
Proof.
  induction 1 as [|x s Hx Hs IH]; simpl; [done|].
  destruct (Ascii.eqb_spec x c) as [->|_]; [done|]. by rewrite IH.
Qed.

Lemma exec_yamlRegex_no_dash text :
  Forall (λ x, x ≠ "-"%char) (list_ascii_of_string text) →
  (exec yamlRegex text).1 = None.
Proof.
  intros H. unfold exec. simpl. rewrite drop_0.
  unfold yamlRegex. simpl source. by rewrite (scan_no_first_char _ _ _ H).
Qed.

(** C1: a document without front matter.  When the boundary pattern is
    nowhere in the contents of a file, [exec] returns [null]; parsing does not
    produce a record with empty attributes and empty text but throws a
    TypeError, and the callback of [parseRawDataAsync] is never called. *)
Theorem C1_no_front_matter_throws :
  ∀ (d : RawFile) (data : list RawFile) (R : Type)
    (callback : list Post → completion R),
    (exec yamlRegex (_contents d)).1 = None →
    parseRawDataAsync safeLoad marked (d :: data) callback
    = Throw (TypeError "Cannot read property '1' of null").
Proof.
  intros d data R callback Hnull. unfold parseRawDataAsync.
  rewrite (parse_loop_first_throws _ _ _ (TypeError "Cannot read property '1' of null")).
  - reflexivity.
  - by apply parse_file_no_match.
Qed.

(** *** Errors of [load] *)

(** With at least one file selected, whatever [parseRawDataAsync] throws
    leaves [load] without [done] having been called. *)
Lemma load_parse_failure_uncaught this fs f listing raw e :
  extFilter engine (this_extension this) = Normal f →
  readdirSync fs (path_normalize (source_path (schema this))) = Normal listing →
  filter_test f listing ≠ [] →
  async_map fs (map (path_join (path_normalize (source_path (schema this))))
                  (filter_test f listing)) = Normal raw →
  parse_loop raw [] = Throw e →
  load this fs = Uncaught e.
Proof.
  intros Hnew Hdir Hne Hread Hparse. unfold load. rewrite Hnew, Hdir, Hread.
  unfold parseRawDataAsync. rewrite Hparse. simpl.
  destruct (filter_test _ listing); [done|reflexivity].
Qed.

(** A failure of [new RegExp], of [readdirSync] or of a file read does
    reach [done]. *)
Lemma load_regexp_failure this fs ex :
  extFilter engine (this_extension this) = Throw ex →
  load this fs = Done (Some ex) None.
Proof. intros H. unfold load. rewrite H. reflexivity. Qed.

Lemma load_readdir_failure this fs f ex :
  extFilter engine (this_extension this) = Normal f →
  readdirSync fs (path_normalize (source_path (schema this))) = Throw ex →
  load this fs = Done (Some ex) None.
Proof. intros Hnew H. unfold load. rewrite Hnew, H. reflexivity. Qed.

Lemma load_read_failure this fs f listing err :
  extFilter engine (this_extension this) = Normal f →
  readdirSync fs (path_normalize (source_path (schema this))) = Normal listing →
  async_map fs (map (path_join (path_normalize (source_path (schema this))))
                  (filter_test f listing)) = Throw err →
  load this fs = Done (Some err) None.
Proof.
  intros Hnew Hdir Hread. unfold load. rewrite Hnew, Hdir, Hread. reflexivity.
Qed.

(** The same for an exception of the YAML loader: if loading the front
    matter [title: [] throws, [load] ends with that exception uncaught. *)
Lemma load_yaml_failure_uncaught e :
  safeLoad "title: [" = Throw e →
  load (initialise (plain "posts"))
    (directory "posts" [("a.md", document "title: [" "body")])
  = Uncaught e.
Proof.
  intros Hyaml. eapply load_parse_failure_uncaught.
  - reflexivity.
  - reflexivity.
  - vm_compute. discriminate.
  - reflexivity.
  - apply parse_loop_first_throws. unfold MarkdownProvider.parse_file.
    replace (exec yamlRegex _).1
      with (Some [document "title: [" "body"; "title: ["; "body"])
      by (vm_compute; reflexivity).
    unfold or_empty. simpl. rewrite Hyaml. reflexivity.
Qed.

(** C2: a failure that is not surfaced.  In a directory holding the one file
    [a.md], a parse failure of that file escapes [load] uncaught and [done]
    is not invoked: so for the TypeError of a document without front matter,
    whatever the libraries are, and so for a YAML exception (here with the
    loader of flat documents, on a front matter whose second line has no
    colon). *)
Theorem C2_parse_failure_not_surfaced :
  load (initialise (plain "posts")) (directory "posts" [("a.md", "Just text")])
  = Uncaught (TypeError "Cannot read property '1' of null") ∧
  MarkdownProvider.load engine flat_yaml marked dateParse stringToNumber
    (initialise (plain "posts"))
    (directory "posts" [("a.md", document ("title: A" +:+ nl +:+ "broken") "body")])
  = Uncaught (YAMLException "can not read an implicit mapping pair").
Proof.
  split.
  - eapply load_parse_failure_uncaught.
    + reflexivity.
    + reflexivity.
    + vm_compute. discriminate.
    + reflexivity.
    + apply parse_loop_first_throws, parse_file_no_match. reflexivity.
  - vm_compute. reflexivity.
Qed.

(** *** Metadata without pagination *)

Lemma paginate_no_count this postCount posts md :
  truthy_num (ds_count (schema this)) = false →
  paginate this postCount posts md = (posts, md).
Proof. unfold paginate. intros ->. rewrite andb_false_r. reflexivity. Qed.

(** C3: metadata when pagination is not triggered.  Every [load] without a
    count that hands an envelope to [done] hands it the empty array
    [metadata] was initialised with, which is not [null]: an array is truthy,
    so [metadata || null] keeps it. *)
Theorem C3_metadata_without_pagination_is_empty_array :
  ∀ this fs env,
    ds_count (schema this) = None →
    load this fs = Done None (Some env) →
    metadata env = MEmptyArray ∧ metadata env ≠ MNull.
Proof.
  intros this fs env Hcount Hload.
  apply load_Done_inv in Hload as (f & listing & raw & posts & _ & _ & _ & _ & Hcb).
  apply load_callback_Normal_inv in Hcb as (sorted & _ & Henv).
  rewrite paginate_no_count in Henv by (rewrite Hcount; reflexivity).
  simpl in Henv. injection Henv as ->. simpl. split; [reflexivity|discriminate].
Qed.

(** *** The extension filter *)

(** For an extension without syntax characters [new RegExp] gives the
    pattern of the dot, the characters of the extension and the end. *)
Lemma atom_of_ordinary_character c :
  syntax_character c = false → atom_of_character c = Some (Lit c).
Proof.
  intros Hc. unfold atom_of_character.
  destruct (Ascii.eqb_spec c ".") as [->|_]; [discriminate|].
  destruct (Ascii.eqb_spec c "$") as [->|_]; [discriminate|].
  by rewrite Hc.
Qed.

Lemma parse_pattern_ordinary ext :
  ordinary ext →
  parse_pattern (list_ascii_of_string (ext +:+ "$"))
  = Some (map Lit (list_ascii_of_string ext) ++ [Eos]).
Proof.
  unfold ordinary. induction ext as [|c ext IH]; simpl; [reflexivity|].
  intros [Hc Hext]%Forall_cons.
  rewrite (atom_of_ordinary_character _ Hc). simpl.
  rewrite (IH Hext). reflexivity.
Qed.

Lemma extFilter_ordinary ext :
  ordinary ext → extFilter engine ext = Normal (Native (ordinary_filter ext)).
Proof.
  intros Hext. unfold extFilter.
  change ("." +:+ ext +:+ "$") with (String "." (ext +:+ "$")).
  cbn [list_ascii_of_string parse_pattern].
  rewrite (parse_pattern_ordinary _ Hext). reflexivity.
Qed.

(** One step of the filter with a RegExp of the fragment. *)
Lemma filter_test_Native_cons (R : RegExp) i listing :
  filter_test (E:=engine) (Native R) (i :: listing)
  = let '(b, R') := test R i in
    if b then i :: filter_test (E:=engine) (Native R') listing
    else filter_test (E:=engine) (Native R') listing.
Proof. cbn [filter_test extFilter_test]. by destruct (test R i). Qed.

(** The pattern of [extFilter] matches at the head of [s] only when [s] is
    one character followed by the extension, and then up to the end. *)
Lemma match_lits_eos e s caps r :
  match_atoms (map Lit e ++ [Eos]) s caps = Some r → s = e ∧ r = (caps, []).
Proof.
  revert s. induction e as [|c e IH]; simpl; intros s H.
  - destruct s; [by injection H as <-|discriminate].
  - destruct s as [|x s]; [discriminate|].
    destruct (Ascii.eqb_spec x c) as [->|_]; [|discriminate].
    apply IH in H as [-> ->]. done.
Qed.

Lemma match_extFilter ext s r :
  match_atoms (source (ordinary_filter ext)) s [] = Some r →
  length s = S (length (list_ascii_of_string ext)) ∧ r = ([], []).
Proof.
  simpl. destruct s as [|x s]; [discriminate|].
  destruct (is_line_terminator x); [discriminate|].
  intros [-> ->]%match_lits_eos. done.
Qed.

Lemma scan_extFilter ext s n caps rest :
  scan (source (ordinary_filter ext)) s = Some (n, caps, rest) →
  rest = [] ∧ length s = n + S (length (list_ascii_of_string ext)).
Proof.
  revert n. induction s as [|x s IH]; intros n.
  - cbn [scan]. destruct (match_atoms _ [] []) as [[c r]|] eqn:E; [|discriminate].
    apply match_extFilter in E as [E _]. discriminate.
  - cbn [scan]. destruct (match_atoms _ (x :: s) []) as [[c r]|] eqn:E.
    + apply match_extFilter in E as [E [= -> ->]]. intros [= <- <- <-]. done.
    + destruct (scan _ s) as [[[m c] r]|] eqn:E'; [|discriminate].
      intros [= <- <- <-]. destruct (IH m eq_refl) as [-> Hlen].
      split; [done|]. simpl. lia.
Qed.

(** A successful [test] leaves [lastIndex] at the end of the name. *)
Lemma test_extFilter_true ext li name R' :
  test (set_lastIndex (ordinary_filter ext) li) name = (true, R') →
  R' = set_lastIndex (ordinary_filter ext) (length (list_ascii_of_string name)).
Proof.
  unfold test, exec. simpl.
  destruct (length (list_ascii_of_string name) <? li); [discriminate|].
  destruct (scan _ _) as [[[n caps] rest]|] eqn:E; [|discriminate].
  apply scan_extFilter in E as [-> _]. intros [= <-].
  unfold set_lastIndex. simpl. f_equal. lia.
Qed.

(** A name too short to hold the extension from [lastIndex] on is
    rejected, and [lastIndex] is reset. *)
Lemma test_extFilter_short ext li name :
  length (list_ascii_of_string name) < li + S (length (list_ascii_of_string ext)) →
  test (set_lastIndex (ordinary_filter ext) li) name = (false, ordinary_filter ext).
Proof.
  intros Hlt. unfold test, exec. simpl.
  destruct (length (list_ascii_of_string name) <? li) eqn:E; [done|].
  apply Nat.ltb_ge in E.
  destruct (scan _ _) as [[[n caps] rest]|] eqn:E'; [|done].
  apply scan_extFilter in E' as [_ Hlen]. rewrite length_drop in Hlen. lia.
Qed.

(** After a selected name, the next name of the listing is dropped unless it
    is longer by at least the extension and one character, whether or not it
    ends with the extension. *)
Lemma filter_test_drops_next ext name next listing R' :
  test (ordinary_filter ext) name = (true, R') →
  length (list_ascii_of_string next)
  < length (list_ascii_of_string name) + S (length (list_ascii_of_string ext)) →
  filter_test (E:=engine) (Native (ordinary_filter ext)) (name :: next :: listing)
  = name :: filter_test (E:=engine) (Native (ordinary_filter ext)) listing.
Proof.
  intros Htest Hlen. rewrite filter_test_Native_cons, Htest.
  apply (test_extFilter_true ext 0) in Htest as ->.
  by rewrite filter_test_Native_cons, (test_extFilter_short _ _ _ Hlen).
Qed.

(** C4: the selection of file names.  [b.md] is selected when it is listed
    alone or first, and is dropped when it follows [a.md]: the RegExp carries
    the [g] flag, so the successful [test] of [a.md] leaves [lastIndex] at 4
    and the search in [b.md] starts there.  In a directory holding both,
    [load] returns one record.  The filter is the object that [new RegExp]
    builds for the default extension [md]. *)
Theorem C4_selection_depends_on_listing :
  ∃ f,
    extFilter engine "md" = Normal f ∧
    filter_test f ["b.md"] = ["b.md"] ∧
    filter_test f ["a.md"; "b.md"] = ["a.md"] ∧
    filter_test f ["b.md"; "a.md"] = ["b.md"] ∧
    ∃ p,
      MarkdownProvider.load engine flat_yaml paragraph iso_date_parse digits_to_number
        (initialise (plain "posts"))
        (directory "posts" [("a.md", document "title: A" "first");
                            ("b.md", document "title: B" "second")])
      = Done None (Some (mkEnvelope [Record_ p] MEmptyArray)) ∧
      location (meta p) = "posts/a.md".
Proof.
  eexists. split; [reflexivity|].
  split; [reflexivity|]. split; [reflexivity|]. split; [reflexivity|].
  eexists. split; [vm_compute; reflexivity|reflexivity].
Qed.


(** *** Sorting preserves the posts *)

Lemma insert_by_perm {A} (comparefn : A → A → Z) x l :
  insert_by comparefn x l ≡ₚ x :: l.
Proof.
  induction l as [|y l IH]; simpl; [done|].
  destruct (comparefn x y <=? 0)%Z; [done|].
  rewrite IH. apply Permutation_swap.
Qed.

Lemma array_sort_perm {A} (comparefn : A → A → Z) l :
  array_sort comparefn l ≡ₚ l.
Proof.
  induction l as [|x l IH]; simpl; [done|].
  rewrite insert_by_perm. by rewrite IH.
Qed.

Lemma decorate_values iteratee index posts ds :
  decorate iteratee index posts = Normal ds → map d_value ds = posts.
Proof.
  revert index ds. induction posts as [|p posts IH]; simpl; intros index ds H.
  - by injection H as <-.
  - apply bind_Normal_inv in H as (c & _ & H).
    apply bind_Normal_inv in H as (rest & Hrest & H).
    injection H as <-. simpl. f_equal. eauto.
Qed.

Lemma sortBy_perm posts iteratee sorted :
  sortBy posts iteratee = Normal sorted → sorted ≡ₚ posts.
Proof.
  unfold MarkdownProvider.sortBy. intros H.
  apply bind_Normal_inv in H as (ds & Hds & H). injection H as <-.
  rewrite array_sort_perm. by rewrite (decorate_values _ _ _ _ Hds).
Qed.

Lemma sort_posts_perm sort posts sorted :
  sort_posts sort posts = Normal sorted → sorted ≡ₚ posts.
Proof.
  revert posts. induction sort as [|[field direction] sort IH]; simpl; intros posts H.
  - by injection H as <-.
  - apply bind_Normal_inv in H as (l & Hl & H).
    apply IH in H. rewrite H. apply sortBy_perm in Hl.
    destruct (direction =? -1)%Z; [rewrite reverse_Permutation|]; done.
Qed.

(** *** Pagination *)

Lemma slice_length_le {A} (l : list A) (a c : Z) :
  (0 ≤ c)%Z → (Z.of_nat (length (slice l a (a + c))) ≤ c)%Z.
Proof.
  intros Hc. unfold slice, relative_index.
  rewrite length_take, length_drop.
  destruct (a <? 0)%Z eqn:Ha; destruct (a + c <? 0)%Z eqn:Hac; lia.
Qed.

Lemma slice_from_offset {A} (l : list A) (a c : Z) :
  (0 ≤ a)%Z → (0 ≤ c)%Z →
  slice l a (a + c) = take (Z.to_nat c) (drop (Z.to_nat a) l).
Proof.
  intros Ha Hc. unfold slice, relative_index.
  assert ((a <? 0)%Z = false) as -> by lia.
  assert ((a + c <? 0)%Z = false) as -> by lia.
  destruct (decide (a ≤ Z.of_nat (length l))%Z) as [Hle|Hgt].
  - rewrite (Z.min_l a) by lia.
    destruct (decide (a + c ≤ Z.of_nat (length l))%Z) as [Hle'|Hgt'].
    + rewrite Z.min_l by lia. f_equal. lia.
    + rewrite Z.min_r by lia.
      rewrite !take_ge; [done| |]; rewrite length_drop; lia.
  - rewrite !(drop_ge l) by lia. by rewrite !take_nil.
Qed.

Lemma project_length this posts : length (project this posts) = length posts.
Proof.
  unfold project, selectFields.
  destruct (default [] _); by rewrite length_map.
Qed.

Lemma paginate_count this postCount posts md count :
  ds_count (schema this) = Some count → count ≠ 0%Z →
  paginate this postCount posts md
  = (slice posts ((page_or_1 this - 1) * count) ((page_or_1 this - 1) * count + count),
     MObject (meta_helper (page_or_1 this) count (Z.of_nat postCount))).
Proof.
  intros Hc Hne. unfold paginate. rewrite Hc. simpl.
  assert (page_or_1 this ≠ 0%Z) as Hp.
  { unfold page_or_1. destruct (ds_page _) as [pg|]; [|done].
    destruct (pg =? 0)%Z eqn:E; lia. }
  assert ((page_or_1 this =? 0)%Z = false) as -> by lia.
  assert ((count =? 0)%Z = false) as -> by lia.
  reflexivity.
Qed.

(** The slice between two non-negative bounds is the index range between
    them. *)
Lemma index_range_from_take_drop {A} (l : list A) (i from to : Z) :
  index_range_from i l from to
  = take (Z.to_nat (to - i) - Z.to_nat (from - i)) (drop (Z.to_nat (from - i)) l).
Proof.
  revert i. induction l as [|x l IH]; intros i; cbn [index_range_from].
  - by rewrite drop_nil, take_nil.
  - rewrite (IH (i + 1)%Z). case_bool_decide as Hin.
    + replace (Z.to_nat (from - i)) with 0 by lia.
      replace (Z.to_nat (from - (i + 1))) with 0 by lia.
      replace (Z.to_nat (to - i) - 0) with (S (Z.to_nat (to - (i + 1)))) by lia.
      rewrite !drop_0, Nat.sub_0_r. reflexivity.
    + destruct (decide (i < from)%Z) as [Hlt|Hge].
      * replace (Z.to_nat (from - i)) with (S (Z.to_nat (from - (i + 1)))) by lia.
        cbn [drop]. f_equal. lia.
      * replace (Z.to_nat (to - i) - Z.to_nat (from - i)) with 0 by lia.
        replace (Z.to_nat (to - (i + 1)) - Z.to_nat (from - (i + 1))) with 0 by lia.
        reflexivity.
Qed.

Lemma index_range_take_drop {A} (l : list A) (from to : Z) :
  (0 ≤ from)%Z →
  index_range l from to = take (Z.to_nat (to - from)) (drop (Z.to_nat from) l).
Proof.
  intros Hfrom. unfold index_range. rewrite index_range_from_take_drop.
  rewrite !Z.sub_0_r. f_equal. lia.
Qed.

Lemma slice_index_range {A} (l : list A) (a b : Z) :
  (0 ≤ a)%Z → (0 ≤ b)%Z → slice l a b = index_range l a b.
Proof.
  intros Ha Hb. rewrite (index_range_take_drop _ _ _ Ha).
  unfold slice, relative_index.
  assert ((a <? 0)%Z = false) as -> by lia.
  assert ((b <? 0)%Z = false) as -> by lia.
  destruct (decide (a ≤ Z.of_nat (length l))%Z) as [Hle|Hgt].
  - rewrite (Z.min_l a) by lia.
    destruct (decide (b ≤ Z.of_nat (length l))%Z) as [Hle'|Hgt'].
    + by rewrite Z.min_l by lia.
    + rewrite Z.min_r by lia.
      rewrite !take_ge; [done| |]; rewrite length_drop; lia.
  - rewrite !(drop_ge l) by lia. by rewrite !take_nil.
Qed.

(** C5, as amended: pagination.  When a count is supplied and the offset
    [(page - 1) * count] and the end [offset + count] are not negative (as
    for a positive count and a page from 1 on), the callback of [load]
    reports the posts at the indices from [offset] up to, not including,
    [offset + count] of the filtered and sorted posts (each projected on the
    requested fields, if any), and metadata whose total count is the number
    of posts after filtering, taken before the slice.  For 25 posts, count 10
    and page 2 they are the posts at indices 10 to 19 and the total count is
    25. *)
Theorem C5_pagination_index_range_and_total :
  ∀ this posts sorted count,
    ds_count (schema this) = Some count → count ≠ 0%Z →
    sort_posts (processSortParameter (ds_sort (schema this)))
      (filter_step this (search_step this posts)) = Normal sorted →
    let page := page_or_1 this in
    let offset := ((page - 1) * count)%Z in
    let filtered := filter_step this (search_step this posts) in
    let paged := index_range sorted offset (offset + count) in
    (0 ≤ offset)%Z → (0 ≤ offset + count)%Z →
    ∃ md,
      load_callback this posts
      = Normal (Done None (Some (mkEnvelope (project this paged) (MObject md)))) ∧
      totalCount md = Z.of_nat (length filtered) ∧
      (length filtered = 25 → count = 10%Z → page = 2%Z →
       paged = take 10 (drop 10 sorted) ∧ length paged = 10 ∧ totalCount md = 25%Z).
Proof.
  intros this posts sorted count Hc Hne Hsort page offset filtered paged Hoff Hend.
  exists (meta_helper page count (Z.of_nat (length filtered))).
  split; [|split; [reflexivity|]].
  - rewrite (load_callback_sorted _ _ _ Hsort).
    rewrite (paginate_count _ _ _ _ _ Hc Hne). cbn [fst snd or_null].
    unfold paged. rewrite <- (slice_index_range _ _ _ Hoff Hend). reflexivity.
  - intros Hlen -> Hpage.
    assert (paged = take 10 (drop 10 sorted)) as Hpaged.
    { subst paged offset. rewrite Hpage.
      rewrite index_range_take_drop by lia. reflexivity. }
    split; [done|]. split.
    + rewrite Hpaged, length_take, length_drop.
      apply sort_posts_perm, Permutation_length in Hsort.
      fold filtered in Hsort. lia.
    + simpl. lia.
Qed.

(** C8, as amended: with a positive count, a [load] that hands an envelope
    to [done] hands it at most [count] results. *)
Theorem C8_results_bounded_by_positive_count :
  ∀ this fs env count,
    ds_count (schema this) = Some count → (0 < count)%Z →
    load this fs = Done None (Some env) →
    (Z.of_nat (length (results env)) ≤ count)%Z.
Proof.
  intros this fs env count Hc Hpos Hload.
  apply load_Done_inv in Hload as (f & listing & raw & posts & _ & _ & _ & _ & Hcb).
  apply load_callback_Normal_inv in Hcb as (sorted & _ & Henv).
  rewrite (paginate_count _ _ _ _ count Hc) in Henv by lia.
  simpl in Henv. injection Henv as ->. simpl.
  rewrite project_length. apply slice_length_le. lia.
Qed.

(** *** Sort direction *)



(** *** Sorting on dates *)

Section InsertionSort.

Context {A : Type} (comparefn : A → A → Z) (P : A → Prop) (R : A → A → Prop).
Context `{!Transitive R}.
Hypothesis comparefn_le : ∀ x y, P x → P y → (comparefn x y ≤ 0)%Z → R x y.
Hypothesis comparefn_gt : ∀ x y, P x → P y → ¬ (comparefn x y ≤ 0)%Z → R y x.

Lemma insert_by_HdRel y x l :
  R y x → HdRel R y l → HdRel R y (insert_by comparefn x l).
Proof.
  intros Hyx Hhd. destruct l as [|z l]; simpl; [by constructor|].
  destruct (comparefn x z <=? 0)%Z; constructor; [done|].
  by inversion Hhd.
Qed.

Lemma insert_by_Sorted x l :
  P x → Forall P l → Sorted R l → Sorted R (insert_by comparefn x l).
Proof.
  intros Hx HP Hs. induction l as [|y l IH]; simpl.
  - by repeat constructor.
  - inversion HP as [|? ? Hy HP']; subst. inversion Hs as [|? ? Hs' Hhd]; subst.
    destruct (comparefn x y <=? 0)%Z eqn:E.
    + constructor; [done|]. constructor. apply comparefn_le; [done..|lia].
    + constructor; [by apply IH|].
      apply insert_by_HdRel; [|done]. apply comparefn_gt; [done..|lia].
  Qed.

Lemma array_sort_Sorted l : Forall P l → Sorted R (array_sort comparefn l).
Proof.
  induction l as [|x l IH]; simpl; intros HP; [constructor|].
  inversion HP as [|? ? Hx HP']; subst.
  apply insert_by_Sorted; [done| |by apply IH].
  by rewrite array_sort_perm.
Qed.

End InsertionSort.

Lemma StronglySorted_lookup_le {A} (R : A → A → Prop) l i j a b :
  StronglySorted R l → i < j → l !! i = Some a → l !! j = Some b → R a b.
Proof.
  intros Hs. revert i j. induction Hs as [|x l Hs IH Hall]; intros i j Hij Hi Hj.
  - by rewrite lookup_nil in Hi.
  - destruct j as [|j]; [lia|]. simpl in Hj. destruct i as [|i].
    + injection Hi as <-. rewrite Forall_forall in Hall.
      apply Hall. by eapply list_elem_of_lookup_2.
    + simpl in Hi. apply (IH i j); [lia|done..].
Qed.

#[local] Instance criteria_le_trans : Transitive criteria_le.
Proof.
  intros x y z [Hy|[Hx Hxy]] [Hz|[Hy' Hyz]]; unfold criteria_le; try tauto.
  right. split; [done|lia].
Qed.

Lemma compare_criteria_le x y :
  number_or_undefined x → number_or_undefined y →
  (compare_criteria stringToNumber x y ≤ 0)%Z → criteria_le x y.
Proof.
  unfold number_or_undefined, criteria_le, compare_criteria, js_gt, js_lt.
  intros [Hx|Hx] [Hy|Hy]; rewrite Hx, Hy; simpl; auto.
  - destruct (criteria_number x =? criteria_number y)%Z eqn:E; simpl;
      [intros _; right; split; [done|lia]|].
    destruct (criteria_number y <? criteria_number x)%Z eqn:E1; simpl; [lia|].
    intros _. right. split; [done|lia].
  - lia.
Qed.

Lemma compare_criteria_gt x y :
  number_or_undefined x → number_or_undefined y →
  ¬ (compare_criteria stringToNumber x y ≤ 0)%Z → criteria_le y x.
Proof.
  unfold number_or_undefined, criteria_le, compare_criteria, js_gt, js_lt.
  intros [Hx|Hx] [Hy|Hy]; rewrite Hx, Hy; simpl; auto.
  - destruct (criteria_number x =? criteria_number y)%Z eqn:E; simpl;
      [intros _; right; split; [done|lia]|].
    destruct (criteria_number y <? criteria_number x)%Z eqn:E1; simpl;
      [intros _; right; split; [done|lia]|].
    destruct (criteria_number x <? criteria_number y)%Z eqn:E2; simpl; lia.
  - lia.
Qed.

(** On posts whose sort value is a date or [undefined], the decoration
    succeeds. *)
Lemma decorate_dates field index posts :
  Forall (λ p, is_Some (date_of dateParse field p) ∨
               sort_value field p = Some VUndefined) posts →
  ∃ ds,
    decorate (sort_iteratee field) index posts = Normal ds ∧
    Forall (decorated_for dateParse field) ds.
Proof.
  intros Hall. revert index.
  induction Hall as [|p posts Hp Hall IH]; intros index; simpl.
  - eexists. split; [reflexivity|constructor].
  - destruct (IH (S index)) as (ds & -> & Hds).
    unfold MarkdownProvider.sort_iteratee.
    unfold MarkdownProvider.decorated_for, date_of, sort_value in *.
    destruct (attributes p) as [m|] eqn:Hattr; simpl in Hp.
    + destruct Hp as [[t Ht]|Hu].
      * rewrite Ht. simpl. eexists. split; [reflexivity|].
        constructor; [|done]. left. unfold criteria_number. simpl.
        rewrite Hattr. simpl. by rewrite Ht.
      * injection Hu as Hu. rewrite Hu. simpl. eexists. split; [reflexivity|].
        constructor; [|done]. right. simpl. rewrite Hattr. simpl. by rewrite Hu.
    + destruct Hp as [[t Ht]|Hu]; discriminate.
Qed.


End Facts.

(** *** The theorems at concrete inputs *)

Lemma C1_no_front_matter_witness :
  parseRawDataAsync flat_yaml paragraph [mkRawFile "posts/a.md" "Just text"]
    (λ posts, Normal posts)
  = Throw (TypeError "Cannot read property '1' of null").
Proof.
  apply (C1_no_front_matter_throws flat_yaml paragraph
           (mkRawFile "posts/a.md" "Just text") [] (list Post)).
  reflexivity.
Defined.

Lemma C3_metadata_witness :
  ∃ env,
    load strict_engine flat_yaml paragraph iso_date_parse digits_to_number
      (initialise (plain "posts")) three_posts = Done None (Some env) ∧
    length (results env) = 3 ∧
    metadata env = MEmptyArray ∧ metadata env ≠ MNull.
Proof.
  eexists. split; [vm_compute; reflexivity|]. split; [reflexivity|].
  apply (C3_metadata_without_pagination_is_empty_array
           strict_engine flat_yaml paragraph iso_date_parse digits_to_number
           (initialise (plain "posts")) three_posts).
  - reflexivity.
  - vm_compute. reflexivity.
Defined.

(** C5: a negative count or a page below 1 triggers pagination too, and
    then [slice] counts its negative bounds from the end of the array.  Of
    25 posts, count [-2] returns the first 23 and page [-1] with count 10
    returns the posts at indices 5 to 14, while the index ranges from 0 to
    [-2] and from [-20] to [-10] hold no post. *)
Lemma C5_negative_bounds_counterexample :
  (let this := paged (-2) None in
   let offset := ((page_or_1 this - 1) * -2)%Z in
   ∃ md,
     sort_posts iso_date_parse digits_to_number
       (processSortParameter (ds_sort (schema this)))
       (filter_step this (search_step this posts25)) = Normal posts25 ∧
     load_callback iso_date_parse digits_to_number this posts25
     = Normal (Done None (Some (mkEnvelope (map Record_ (take 23 posts25)) md))) ∧
     offset = 0%Z ∧
     index_range posts25 offset (offset + -2) = []) ∧
  (let this := paged 10 (Some (-1)%Z) in
   let offset := ((page_or_1 this - 1) * 10)%Z in
   ∃ md,
     sort_posts iso_date_parse digits_to_number
       (processSortParameter (ds_sort (schema this)))
       (filter_step this (search_step this posts25)) = Normal posts25 ∧
     load_callback iso_date_parse digits_to_number this posts25
     = Normal (Done None (Some (mkEnvelope (map Record_ (take 10 (drop 5 posts25))) md))) ∧
     offset = (-20)%Z ∧
     index_range posts25 offset (offset + 10) = []).
Proof.
  split; cbv zeta; eexists;
    (split; [reflexivity|]); (split; [vm_compute; reflexivity|]);
    split; reflexivity.
Qed.

Lemma C5_pagination_witness :
  let this :=
    initialise (mkDatasource "posts" None None None (Some 10%Z) None None (Some 2%Z)) in
  ∃ md,
    load_callback iso_date_parse digits_to_number this posts25
    = Normal (Done None (Some (mkEnvelope (map Record_ (take 10 (drop 10 posts25)))
                                 (MObject md)))) ∧
    totalCount md = 25%Z.
Proof.
  intros this.
  destruct (C5_pagination_index_range_and_total iso_date_parse digits_to_number
              this posts25 posts25 10%Z)
    as (md & Hcb & _ & H25);
    [reflexivity|discriminate|reflexivity|vm_compute; discriminate..|].
  destruct H25 as (Hpaged & _ & Htotal); [reflexivity..|].
  exists md. split; [|exact Htotal].
  rewrite Hcb. cbv zeta. rewrite Hpaged. reflexivity.
Defined.

(** C8: with the count [-2] the slice is [slice(0, -2)], which drops the
    last two of the three posts and keeps one: more than the count. *)
Lemma C8_negative_count_counterexample :
  ∃ env,
    load strict_engine flat_yaml paragraph iso_date_parse digits_to_number
      (with_count (-2)) three_posts = Done None (Some env) ∧
    length (results env) = 1 ∧
    ¬ (Z.of_nat (length (results env)) ≤ -2)%Z.
Proof.
  eexists. split; [vm_compute; reflexivity|]. split; [reflexivity|]. simpl. lia.
Qed.

Lemma C8_positive_count_witness :
  ∃ env,
    load strict_engine flat_yaml paragraph iso_date_parse digits_to_number
      (with_count 2) three_posts = Done None (Some env) ∧
    (Z.of_nat (length (results env)) ≤ 2)%Z.
Proof.
  eexists. split; [vm_compute; reflexivity|].
  apply (C8_results_bounded_by_positive_count
           strict_engine flat_yaml paragraph iso_date_parse digits_to_number
           (with_count 2) three_posts).
  - reflexivity.
  - lia.
  - vm_compute. reflexivity.
Defined.



End MarkdownProviderFacts.

(** ** Properties of the view *)

Module ViewFacts.
Import Js View Examples.

Section Facts.

Context {Data : Type}.
Context (require : string → completion (Data → string → Data * completion string)).
Context (template_render : Data → string → bool → completion string).

Local Abbreviation run_postProcessors := (run_postProcessors Data require).
Local Abbreviation render := (render Data require template_render).

(** The loop over a chain [pre ++ rest], when the scripts of [pre] all
    return: it goes on with [rest] from the state [pre] left. *)
Lemma run_postProcessors_app pre rest d raw processed log d' log' out :
  run_postProcessors pre d raw processed log = (d', log', Normal out) →
  run_postProcessors (pre ++ rest) d raw processed log
  = run_postProcessors rest d' raw out log'.
Proof.
  revert d processed log. induction pre as [|s pre IH]; simpl; intros d processed log H.
  - by injection H as -> -> ->.
  - destruct (require s) as [f|e]; [|discriminate].
    destruct (f d raw) as [d1 [o|e]]; [|discriminate]. by apply IH.
Qed.

(** Every call the loop makes passes [raw] as second argument. *)
Lemma run_postProcessors_log scripts d raw processed log :
  Forall (λ i, inv_output Data i = raw) log →
  Forall (λ i, inv_output Data i = raw)
    (run_postProcessors scripts d raw processed log).1.2.
Proof.
  revert d processed log. induction scripts as [|s scripts IH]; simpl;
    intros d processed log Hlog; [done|].
  destruct (require s) as [f|e]; [|done].
  assert (Forall (λ i, inv_output Data i = raw) (log ++ [mkInvocation Data s d raw]))
    as Hlog' by (apply Forall_app; split; [done|by repeat constructor]).
  destruct (f d raw) as [d1 [o|e]]; [by apply IH|done].
Qed.

Lemma render_with_scripts this raw own :
  template_render (data Data this) (hostKey (page Data this))
    (keepWhitespace (page Data this)) = Normal raw →
  postProcessors (page Data this) = PPArray own →
  own ++ default [] (globalPostProcessors (page Data this)) ≠ [] →
  render this
  = match run_postProcessors (own ++ default [] (globalPostProcessors (page Data this)))
            (data Data this) raw raw [] with
    | (d, log, Throw err) =>
        (setData Data this d, log, mkDone (Some err) AUndefined AUndefined)
    | (d, log, Normal processed) =>
        (setData Data this d, log, mkDone None (AString processed) (AString raw))
    end.
Proof.
  intros Ht Hpp Hne. unfold View.render, postProcessors_. rewrite Ht, Hpp. simpl.
  destruct (own ++ _) as [|s l]; [done|]. reflexivity.
Qed.

(** C9: a post-processor that throws.  When the template renders and, in the
    configured chain, the scripts before [script] return and [script] throws
    [err], [done] is invoked with [err] itself and with no processed and no
    raw output. *)
Theorem C9_postprocessor_error_aborts :
  ∀ this raw own pre script post d' log out f d'' err,
    template_render (data Data this) (hostKey (page Data this))
      (keepWhitespace (page Data this)) = Normal raw →
    postProcessors (page Data this) = PPArray own →
    own ++ default [] (globalPostProcessors (page Data this)) = pre ++ script :: post →
    run_postProcessors pre (data Data this) raw raw [] = (d', log, Normal out) →
    require script = Normal f →
    f d' raw = (d'', Throw err) →
    (render this).2 = mkDone (Some err) AUndefined AUndefined.
Proof.
  intros this raw own pre script post d' log out f d'' err Ht Hpp Hchain Hpre Hreq Hf.
  rewrite (render_with_scripts this raw own Ht Hpp).
  - rewrite Hchain, (run_postProcessors_app _ _ _ _ _ _ _ _ _ Hpre).
    simpl. rewrite Hreq, Hf. reflexivity.
  - rewrite Hchain. by destruct pre.
Qed.

(** C10: what the post-processors receive.  When the template renders, every
    call of a post-processor made by [render] has the raw output as second
    argument; and when the scripts of the chain all return, the processed
    output handed to [done] is what the last script returned for the raw
    output, whatever the scripts before it returned. *)
Theorem C10_postprocessors_receive_raw :
  ∀ this raw own,
    template_render (data Data this) (hostKey (page Data this))
      (keepWhitespace (page Data this)) = Normal raw →
    postProcessors (page Data this) = PPArray own →
    Forall (λ i, inv_output Data i = raw) (render this).1.2 ∧
    ∀ pre last d' log out f d'' res,
      own ++ default [] (globalPostProcessors (page Data this)) = pre ++ [last] →
      run_postProcessors pre (data Data this) raw raw [] = (d', log, Normal out) →
      require last = Normal f →
      f d' raw = (d'', Normal res) →
      (render this).2 = mkDone None (AString res) (AString raw) ∧
      (render this).1.2 = log ++ [mkInvocation Data last d' raw].
Proof.
  intros this raw own Ht Hpp. split.
  - destruct (decide (own ++ default [] (globalPostProcessors (page Data this)) = []))
      as [Hnil|Hne].
    + unfold View.render, postProcessors_. rewrite Ht, Hpp, Hnil. simpl. constructor.
    + rewrite (render_with_scripts this raw own Ht Hpp Hne).
      pose proof (run_postProcessors_log
                    (own ++ default [] (globalPostProcessors (page Data this)))
                    (data Data this) raw raw [] (Forall_nil_2 _)) as Hlog.
      destruct (run_postProcessors _ _ _ _ _) as [[d lg] [o|e]]; exact Hlog.
  - intros pre last d' log out f d'' res Hchain Hpre Hreq Hf.
    rewrite (render_with_scripts this raw own Ht Hpp).
    + rewrite Hchain, (run_postProcessors_app _ _ _ _ _ _ _ _ _ Hpre).
      simpl. rewrite Hreq, Hf. split; reflexivity.
    + rewrite Hchain. by destruct pre.
Qed.

End Facts.

Lemma C9_postprocessor_error_witness :
  (render nat processors echo_template (view_with ["upper"; "failing"; "minify"])).2
  = mkDone (Some (mkError "Error" "processor failed" None)) AUndefined AUndefined.
Proof.
  eapply (C9_postprocessor_error_aborts processors echo_template
            (view_with ["upper"; "failing"; "minify"])
            "<html>site</html>" ["upper"; "failing"; "minify"]
            ["upper"] "failing" ["minify"]); reflexivity.
Defined.

Lemma C10_postprocessors_witness :
  let r := render nat processors echo_template (view_with ["upper"; "minify"]) in
  Forall (λ i, inv_output nat i = "<html>site</html>") r.1.2 ∧
  r.2 = mkDone None (AString "MIN(<html>site</html>)") (AString "<html>site</html>").
Proof.
  intros r.
  destruct (C10_postprocessors_receive_raw processors echo_template
              (view_with ["upper"; "minify"]) "<html>site</html>" ["upper"; "minify"])
    as [Hlog Hlast]; [reflexivity..|].
  split; [exact Hlog|].
  eapply (Hlast ["upper"] "minify"); reflexivity.
Defined.

End ViewFacts.

(** ** Further properties of the provider *)

Module MarkdownProviderMore.
Import Js MarkdownProvider Examples Reference MarkdownProviderFacts.

(** *** Which names the extension filter keeps *)

Lemma match_lits_eos_refl e caps :
  match_atoms (map Lit e ++ [Eos]) e caps = Some (caps, []).
Proof.
  induction e as [|c e IH]; simpl; [done|]. by rewrite Ascii.eqb_refl.
Qed.

Lemma match_extFilter_head ext s :
  match_atoms (source (ordinary_filter ext)) s []
  = if head_matches (list_ascii_of_string ext) s then Some ([], []) else None.
Proof.
  destruct (match_atoms _ s []) as [r|] eqn:E.
  - pose proof E as [_ ->]%match_extFilter. simpl in E.
    destruct s as [|c t]; [discriminate|]. simpl.
    destruct (is_line_terminator c); [discriminate|].
    apply match_lits_eos in E as [-> _]. simpl. by rewrite bool_decide_eq_true_2.
  - destruct s as [|c t]; [done|]. simpl in *.
    destruct (is_line_terminator c); [done|]. simpl.
    case_bool_decide as Ht; [|done]. subst t.
    by rewrite match_lits_eos_refl in E.
Qed.

Lemma head_matches_length ext s :
  head_matches ext s = true → length s = S (length ext).
Proof.
  destruct s as [|c t]; [done|]. simpl.
  intros [_ Ht%bool_decide_eq_true]%andb_true_iff. by subst.
Qed.

(** The search of that pattern in [s] succeeds exactly when
    the last [|ext| + 1] characters of [s] match, and there. *)
Lemma scan_extFilter_spec ext s :
  let e := list_ascii_of_string ext in
  scan (source (ordinary_filter ext)) s
  = if (S (length e) <=? length s) && head_matches e (drop (length s - S (length e)) s)
    then Some (length s - S (length e), [], [])
    else None.
Proof.
  intros e. induction s as [|x s IH].
  - cbn [scan]. rewrite match_extFilter_head. done.
  - cbn [scan]. rewrite match_extFilter_head. fold e.
    destruct (head_matches e (x :: s)) eqn:Hh.
    + pose proof (head_matches_length _ _ Hh) as Hlen. rewrite Hlen.
      rewrite Nat.leb_refl, Nat.sub_diag, drop_0, Hh. done.
    + rewrite IH. change (length (x :: s)) with (S (length s)).
      destruct (decide (S (length e) ≤ length s)) as [Hle|Hgt].
      * assert ((S (length e) <=? length s) = true) as H1 by (apply Nat.leb_le; lia).
        assert ((S (length e) <=? S (length s)) = true) as H2 by (apply Nat.leb_le; lia).
        assert (S (length s) - S (length e) = S (length s - S (length e))) as H3 by lia.
        rewrite H1, H2, H3. cbn [drop andb].
        destruct (head_matches e _); done.
      * assert ((S (length e) <=? length s) = false) as H1 by (apply Nat.leb_gt; lia).
        rewrite H1. cbn [andb].
        destruct (decide (length s = length e)) as [Heq|Hne].
        -- rewrite Heq, Nat.leb_refl, Nat.sub_diag, drop_0, Hh. done.
        -- assert ((S (length e) <=? S (length s)) = false) as H2
             by (apply Nat.leb_gt; lia).
           rewrite H2. done.
Qed.

(** One call of [test], from any [lastIndex]. *)
Lemma test_extFilter_spec ext li name :
  test (set_lastIndex (ordinary_filter ext) li) name
  = if selected_from ext li name
    then (true, set_lastIndex (ordinary_filter ext) (length (list_ascii_of_string name)))
    else (false, ordinary_filter ext).
Proof.
  unfold selected_from, ends_with_ext.
  destruct (decide (li + S (length (list_ascii_of_string ext))
                    ≤ length (list_ascii_of_string name))) as [Hle|Hgt].
  - rewrite (leb_correct _ _ Hle), andb_true_r.
    unfold test, exec. cbn [global set_lastIndex ordinary_filter lastIndex source].
    pose proof (scan_extFilter_spec ext (drop li (list_ascii_of_string name))) as Hscan.
    cbn [ordinary_filter source] in Hscan. rewrite Hscan. clear Hscan.
    remember (list_ascii_of_string name) as s eqn:Hs.
    remember (list_ascii_of_string ext) as e eqn:He.
    assert ((length s <? li) = false) as -> by (apply Nat.ltb_ge; lia).
    rewrite length_drop, drop_drop.
    replace (li + (length s - li - S (length e))) with (length s - S (length e)) by lia.
    assert ((S (length e) <=? length s - li) = true) as -> by (apply Nat.leb_le; lia).
    assert ((S (length e) <=? length s) = true) as -> by (apply Nat.leb_le; lia).
    cbn [andb].
    destruct (head_matches _ _); [|done].
    unfold set_lastIndex. simpl. do 2 f_equal. lia.
  - assert ((li + S (length (list_ascii_of_string ext))
             <=? length (list_ascii_of_string name)) = false) as ->
      by (apply Nat.leb_gt; lia).
    rewrite andb_false_r. apply test_extFilter_short. lia.
Qed.

Section Selection.

Context (engine : RegExpEngine).

(** The filter with the pattern of an extension of ordinary characters is
    the plain selection. *)
Lemma filter_test_ordinary_filter ext li listing :
  filter_test (E:=engine) (Native (set_lastIndex (ordinary_filter ext) li)) listing
  = selection ext li listing.
Proof.
  revert li. induction listing as [|name listing IH]; intros li; [done|].
  rewrite filter_test_Native_cons. cbn [selection]. rewrite test_extFilter_spec.
  destruct (selected_from ext li name).
  - by rewrite IH.
  - exact (IH 0).
Qed.

(** X1: the names [load] keeps.  For an extension without syntax characters
    [new RegExp] gives a RegExp, and the filter over a listing is then the
    plain selection in which a name is kept when it ends with any character
    that is not a line terminator followed by the extension, and that ending
    starts at or after the end of the name kept just before it; so it is from
    any [lastIndex] of the RegExp, and [load] starts it at 0. *)
Theorem filter_test_is_selection :
  ∀ ext,
    ordinary ext →
    ∃ R,
      extFilter engine ext = Normal (Native R) ∧
      (∀ listing, filter_test (E:=engine) (Native R) listing = selection ext 0 listing) ∧
      (∀ li listing,
         filter_test (E:=engine) (Native (set_lastIndex R li)) listing
         = selection ext li listing).
Proof.
  intros ext Hext. exists (ordinary_filter ext).
  split; [by apply extFilter_ordinary|]. split.
  - intros listing. exact (filter_test_ordinary_filter ext 0 listing).
  - intros li listing. apply filter_test_ordinary_filter.
Qed.

Lemma list_ascii_of_string_app a b :
  list_ascii_of_string (a +:+ b) = list_ascii_of_string a ++ list_ascii_of_string b.
Proof. induction a as [|c a IH]; simpl; [done|]. by rewrite IH. Qed.

Lemma ends_with_ext_iff ext name :
  ends_with_ext ext name = true ↔
  ∃ stem c, name = stem +:+ String c ext ∧ is_line_terminator c = false.
Proof.
  unfold ends_with_ext. split.
  - intros [Hlen Hhead]%andb_true_iff. apply Nat.leb_le in Hlen.
    remember (list_ascii_of_string name) as s eqn:Hs.
    remember (list_ascii_of_string ext) as e eqn:He.
    destruct (drop (length s - S (length e)) s) as [|c t] eqn:Hdrop; [done|].
    simpl in Hhead. apply andb_true_iff in Hhead as [Hc Ht%bool_decide_eq_true].
    subst t. exists (string_of_list_ascii (take (length s - S (length e)) s)), c.
    split; [|by destruct (is_line_terminator c)].
    rewrite <- (string_of_list_ascii_of_string name), <- Hs.
    rewrite <- (take_drop (length s - S (length e)) s) at 1. rewrite Hdrop.
    rewrite <- (string_of_list_ascii_of_string (_ +:+ _)).
    rewrite list_ascii_of_string_app, list_ascii_of_string_of_list_ascii.
    simpl. by rewrite <- He.
  - intros (stem & c & -> & Hc).
    rewrite list_ascii_of_string_app.
    change (list_ascii_of_string (String c ext)) with (c :: list_ascii_of_string ext).
    rewrite length_app. cbn [length].
    apply andb_true_iff. split; [apply Nat.leb_le; lia|].
    replace (length (list_ascii_of_string stem) + S (length (list_ascii_of_string ext))
             - S (length (list_ascii_of_string ext)))
      with (length (list_ascii_of_string stem)) by lia.
    rewrite drop_app_length. simpl. rewrite Hc. simpl. by apply bool_decide_eq_true.
Qed.

Lemma ends_with_ext_length ext name :
  ends_with_ext ext name = true →
  S (length (list_ascii_of_string ext)) ≤ length (list_ascii_of_string name).
Proof. unfold ends_with_ext. intros [H _]%andb_true_iff. by apply Nat.leb_le. Qed.

(** X2: a name listed alone.  For an extension without syntax characters,
    the one name of a listing is kept exactly when it is some text, then any
    one character that is not a line terminator (the dot of the pattern is
    not escaped, so it need not be a dot), then the extension. *)
Theorem filter_test_single_name :
  ∀ ext,
    ordinary ext →
    ∃ f,
      extFilter engine ext = Normal f ∧
      ∀ name,
        filter_test f [name] = [name] ↔
        ∃ stem c, name = stem +:+ String c ext ∧ is_line_terminator c = false.
Proof.
  intros ext Hext. exists (Native (ordinary_filter ext)).
  split; [by apply extFilter_ordinary|].
  intros name. rewrite <- ends_with_ext_iff.
  change (ordinary_filter ext) with (set_lastIndex (ordinary_filter ext) 0).
  rewrite filter_test_ordinary_filter. cbn [selection]. unfold selected_from.
  destruct (ends_with_ext ext name) eqn:Hends.
  - apply ends_with_ext_length in Hends. cbn [Nat.add andb].
    rewrite (leb_correct _ _ Hends). done.
  - simpl. split; discriminate.
Qed.

(** X3: names of one length.  For an extension without syntax characters,
    when all the names of a listing end with the extension and have the same
    length, [load] keeps the names at the even positions of the listing and
    drops the others. *)
Theorem filter_test_same_length_keeps_every_other :
  ∀ ext,
    ordinary ext →
    ∃ f,
      extFilter engine ext = Normal f ∧
      ∀ len listing,
        Forall (λ name, ends_with_ext ext name = true ∧
                        length (list_ascii_of_string name) = len) listing →
        filter_test f listing = evens listing.
Proof.
  intros ext Hext. exists (Native (ordinary_filter ext)).
  split; [by apply extFilter_ordinary|].
  intros len listing Hall.
  change (ordinary_filter ext) with (set_lastIndex (ordinary_filter ext) 0).
  rewrite filter_test_ordinary_filter.
  assert (∀ name, ends_with_ext ext name = true →
            length (list_ascii_of_string name) = len →
            selected_from ext 0 name = true ∧ selected_from ext len name = false)
    as Hsel.
  { intros name Hends Hlen. unfold selected_from. rewrite Hends.
    apply ends_with_ext_length in Hends. split.
    - apply andb_true_iff. split; [done|]. apply Nat.leb_le. simpl. lia.
    - apply andb_false_iff. right. apply Nat.leb_gt. lia. }
  enough (selection ext 0 listing = evens listing ∧
          ∀ n1, ends_with_ext ext n1 = true →
                length (list_ascii_of_string n1) = len →
                selection ext 0 (n1 :: listing) = evens (n1 :: listing)) as [H _]
    by exact H.
  induction Hall as [|n2 listing [E2 L2] Hall [IH1 IH2]].
  - split; [done|]. intros n1 E1 L1.
    cbn [selection evens]. by rewrite (proj1 (Hsel _ E1 L1)).
  - split; [by apply IH2|]. intros n1 E1 L1.
    cbn [selection evens]. rewrite (proj1 (Hsel _ E1 L1)), L1.
    rewrite (proj2 (Hsel _ E2 L2)). by rewrite IH1.
Qed.

(** The characters of the extension are pattern syntax: with the extension
    [.md] the pattern is two dots, [m], [d] and the end, and the name [aamd],
    which does not end with [.md], is kept. *)
Lemma extFilter_dot_in_extension :
  ∃ f, extFilter engine ".md" = Normal f ∧ filter_test f ["aamd"] = ["aamd"].
Proof. eexists. split; reflexivity. Qed.

(** An extension that is no pattern: [new RegExp] is left to the engine, and
    what it throws ends [load] through [done]. *)
Lemma extFilter_outside_fragment :
  extFilter engine "(" = (F ← foreign_new engine ".($"; Normal (Foreign F)).
Proof. reflexivity. Qed.

End Selection.

(** *** The front-matter pattern *)

Lemma greedy_Some {R} cls (k : list ascii → list ascii → option R) taken s r :
  greedy cls k taken s = Some r →
  ∃ u w, s = u ++ w ∧ Forall (λ c, cls c = true) u ∧ k (taken ++ u) w = Some r.
Proof.
  revert taken. induction s as [|c s IH]; intros taken; cbn [greedy].
  - intros H. exists [], []. rewrite (app_nil_r taken). by repeat split.
  - destruct (cls c) eqn:Hc.
    + destruct (greedy cls k (taken ++ [c]) s) as [r'|] eqn:E.
      * intros [= ->]. apply IH in E as (u & w & -> & Hu & Hk).
        exists (c :: u), w. rewrite <- app_assoc in Hk.
        split; [done|]. split; [by constructor|done].
      * intros H. exists [], (c :: s). rewrite (app_nil_r taken). by repeat split.
    + intros H. exists [], (c :: s). rewrite (app_nil_r taken). by repeat split.
Qed.

Lemma greedy_None {R} cls (k : list ascii → list ascii → option R) taken s :
  (∀ u w, s = u ++ w → k (taken ++ u) w = None) →
  greedy cls k taken s = None.
Proof.
  revert taken. induction s as [|c s IH]; intros taken Hk; cbn [greedy].
  - rewrite <- (app_nil_r taken). by apply Hk.
  - assert (k taken (c :: s) = None) as Hhere
      by (rewrite <- (app_nil_r taken) at 1; by apply Hk).
    destruct (cls c); [|done].
    rewrite IH; [done|]. intros u w ->. rewrite <- app_assoc. by apply Hk.
Qed.

(** The repetition stops at once on an input that does not start in the
    class. *)
Lemma greedy_stop {R} cls (k : list ascii → list ascii → option R) taken s :
  match s with [] => True | c :: _ => cls c = false end →
  greedy cls k taken s = k taken s.
Proof. destruct s as [|c s]; [done|]. cbn [greedy]. by intros ->. Qed.

(** The repetition takes [pre] when the continuation accepts there and
    nowhere further. *)
Lemma greedy_longest {R} cls (k : list ascii → list ascii → option R) taken pre suf r :
  Forall (λ c, cls c = true) pre →
  k (taken ++ pre) suf = Some r →
  (∀ u w, suf = u ++ w → u ≠ [] → k (taken ++ pre ++ u) w = None) →
  greedy cls k taken (pre ++ suf) = Some r.
Proof.
  intros Hpre. revert taken.
  induction Hpre as [|c pre Hc Hpre IH]; intros taken Hk Hlater.
  - rewrite app_nil_r in Hk. simpl in *.
    destruct suf as [|c s]; [done|]. cbn [greedy].
    destruct (cls c); [|done].
    rewrite greedy_None; [done|].
    intros u w ->. rewrite <- app_assoc. by apply (Hlater (c :: u)).
  - cbn [app greedy]. rewrite Hc.
    rewrite (IH (taken ++ [c])); [done| |].
    + by rewrite <- app_assoc.
    + intros u w Hs Hu. rewrite <- app_assoc. by apply Hlater.
Qed.

Lemma greedy_is_Some {R} cls (k : list ascii → list ascii → option R) taken s :
  (∀ t w, is_Some (k t w)) → is_Some (greedy cls k taken s).
Proof.
  intros Htotal. revert taken. induction s as [|c s IH]; intros taken; cbn [greedy].
  - apply Htotal.
  - destruct (cls c); [|apply Htotal].
    destruct (IH (taken ++ [c])) as [r ->]. by eexists.
Qed.

(** With a continuation that always accepts, the repetition takes every
    character of the class it can. *)
Lemma greedy_total_max {R} cls (k : list ascii → list ascii → option R) taken s r :
  (∀ t w, is_Some (k t w)) →
  greedy cls k taken s = Some r →
  ∃ u w, s = u ++ w ∧ Forall (λ c, cls c = true) u ∧ k (taken ++ u) w = Some r ∧
         match w with [] => True | c :: _ => cls c = false end.
Proof.
  intros Htotal. revert taken. induction s as [|c s IH]; intros taken; cbn [greedy].
  - intros H. exists [], []. rewrite (app_nil_r taken). by repeat split.
  - destruct (cls c) eqn:Hc.
    + destruct (greedy cls k (taken ++ [c]) s) as [r'|] eqn:E.
      * intros [= ->]. apply IH in E as (u & w & -> & Hu & Hk & Hw).
        exists (c :: u), w. rewrite <- app_assoc in Hk.
        split; [done|]. split; [by constructor|done].
      * destruct (greedy_is_Some cls k (taken ++ [c]) s Htotal) as [r' Hr'].
        congruence.
    + intros H. exists [], (c :: s). rewrite (app_nil_r taken). by repeat split.
Qed.

Lemma scan_Some r s n caps rest :
  scan r s = Some (n, caps, rest) →
  match_atoms r (drop n s) [] = Some (caps, rest) ∧ n ≤ length s.
Proof.
  revert n. induction s as [|x s IH]; intros n; cbn [scan].
  - destruct (match_atoms r [] []) as [[c t]|] eqn:E; [|discriminate].
    intros [= <- <- <-]. split; [done|lia].
  - destruct (match_atoms r (x :: s) []) as [[c t]|] eqn:E.
    + intros [= <- <- <-]. split; [done|simpl; lia].
    + destruct (scan r s) as [[[m c] t]|] eqn:E'; [|discriminate].
      intros [= <- <- <-]. destruct (IH m eq_refl) as [Hm Hle].
      split; [done|simpl; lia].
Qed.

Lemma scan_head r s caps rest :
  match_atoms r s [] = Some (caps, rest) → scan r s = Some (0, caps, rest).
Proof. intros H. destruct s; cbn [scan]; by rewrite H. Qed.

Lemma string_of_list_ascii_inj_list a b :
  list_ascii_of_string a = list_ascii_of_string b → a = b.
Proof.
  intros H. rewrite <- (string_of_list_ascii_of_string a), H.
  apply string_of_list_ascii_of_string.
Qed.

Lemma string_of_list_ascii_app u w :
  string_of_list_ascii (u ++ w) = string_of_list_ascii u +:+ string_of_list_ascii w.
Proof.
  apply string_of_list_ascii_inj_list.
  by rewrite list_ascii_of_string_app, !list_ascii_of_string_of_list_ascii.
Qed.

Lemma newline_run_newlines n : newline_run n → newlines (string_of_list_ascii n).
Proof.
  intros [Hne Hall]. split.
  - destruct n; [done|discriminate].
  - by rewrite list_ascii_of_string_of_list_ascii.
Qed.

(** What a match of the front-matter pattern at the head of [s] is made
    of. *)
Lemma yamlRegex_match_shape s caps res :
  match_atoms (source yamlRegex) s caps = Some res →
  ∃ n1 g1 n2 n3 g2,
    s = dashes ++ n1 ++ g1 ++ n2 ++ dashes ++ n3 ++ g2 ∧
    newline_run n1 ∧ newline_run n2 ∧ newline_run n3 ∧
    res = (caps ++ [string_of_list_ascii g1; string_of_list_ascii g2], []) ∧
    match g2 with [] => True | c :: _ => is_line_terminator c = false end.
Proof.
  cbn [source yamlRegex]. intros H.
  destruct s as [|c1 s]; [discriminate|]. cbn [match_atoms] in H.
  destruct (Ascii.eqb_spec c1 "-") as [->|]; [|discriminate].
  destruct s as [|c2 s]; [discriminate|]. cbn [match_atoms] in H.
  destruct (Ascii.eqb_spec c2 "-") as [->|]; [|discriminate].
  destruct s as [|c3 s]; [discriminate|]. cbn [match_atoms] in H.
  destruct (Ascii.eqb_spec c3 "-") as [->|]; [|discriminate].
  destruct s as [|x1 s]; [discriminate|]. cbn [match_atoms] in H.
  destruct (cls_newline x1) eqn:Hx1; [|discriminate].
  apply greedy_Some in H as (u1 & w1 & -> & Hu1 & H). cbn [match_atoms] in H.
  apply greedy_Some in H as (g1 & w2 & -> & _ & H).
  destruct w2 as [|x2 w2]; [discriminate|]. cbn [match_atoms] in H.
  destruct (cls_newline x2) eqn:Hx2; [|discriminate].
  apply greedy_Some in H as (u2 & w3 & -> & Hu2 & H).
  destruct w3 as [|d1 w3]; [discriminate|]. cbn [match_atoms] in H.
  destruct (Ascii.eqb_spec d1 "-") as [->|]; [|discriminate].
  destruct w3 as [|d2 w3]; [discriminate|]. cbn [match_atoms] in H.
  destruct (Ascii.eqb_spec d2 "-") as [->|]; [|discriminate].
  destruct w3 as [|d3 w3]; [discriminate|]. cbn [match_atoms] in H.
  destruct (Ascii.eqb_spec d3 "-") as [->|]; [|discriminate].
  destruct w3 as [|x3 w3]; [discriminate|]. cbn [match_atoms] in H.
  destruct (cls_newline x3) eqn:Hx3; [|discriminate].
  apply greedy_total_max in H as (u3 & w4 & -> & Hu3 & H & Hw4).
  2:{ intros t w. cbn [match_atoms]. apply greedy_is_Some. intros t' w'. by eexists. }
  cbn [match_atoms] in H.
  apply greedy_total_max in H as (g2 & w5 & -> & _ & H & Hw5).
  2:{ intros t w. by eexists. }
  destruct w5 as [|? ?]; [|discriminate]. injection H as <-.
  exists (x1 :: u1), g1, (x2 :: u2), (x3 :: u3), g2.
  rewrite app_nil_r in *. simpl.
  split; [done|].
  split; [split; [done|by constructor]|].
  split; [split; [done|by constructor]|].
  split; [split; [done|by constructor]|].
  split; [by rewrite <- app_assoc|].
  destruct g2; [done|]. exact Hw4.
Qed.

Lemma lit_fails_without c r w caps :
  Forall (λ x, x ≠ c) w → match_atoms (Lit c :: r) w caps = None.
Proof.
  destruct 1 as [|x w Hx _]; cbn [match_atoms]; [done|].
  by destruct (Ascii.eqb_spec x c).
Qed.

(** Where there is no dash, no boundary starts. *)
Lemma boundary_fails_without_dash r w caps :
  Forall (λ x, x ≠ "-"%char) w →
  match_atoms (Plus cls_newline :: Lit "-" :: r) w caps = None.
Proof.
  intros Hw. destruct w as [|x w]; cbn [match_atoms]; [done|].
  destruct (cls_newline x); [|done].
  apply greedy_None. intros u w' ->.
  apply lit_fails_without. apply Forall_cons_1 in Hw as [_ Hw].
  by apply Forall_app in Hw as [_ Hw].
Qed.

Lemma boundary_fails_after_dashes r b k w caps :
  Forall (λ x, x ≠ "-"%char) b →
  dashes ++ "010"%char :: b = k ++ w →
  match_atoms (Plus cls_newline :: Lit "-" :: r) w caps = None.
Proof.
  intros Hb Heq. unfold dashes in Heq.
  destruct k as [|? [|? [|? [|? k]]]]; simplify_eq/=; try done.
  - apply greedy_None. intros u w' ->. apply lit_fails_without.
    by apply Forall_app in Hb as [_ Hb].
  - apply boundary_fails_without_dash. by apply Forall_app in Hb as [_ Hb].
Qed.

Lemma lits_plus_step r x rest caps :
  match_atoms (Lit "-" :: Lit "-" :: Lit "-" :: Plus cls_newline :: r)
    (dashes ++ x :: rest) caps
  = if cls_newline x
    then greedy cls_newline (λ _ rest', match_atoms r rest' caps) [x] rest
    else None.
Proof. reflexivity. Qed.

Lemma group_step cls r s caps :
  match_atoms (Group cls :: r) s caps
  = greedy cls (λ g rest, match_atoms r rest (caps ++ [string_of_list_ascii g])) [] s.
Proof. reflexivity. Qed.

Lemma greedy_step_back {R} cls (k : list ascii → list ascii → option R) taken c s :
  cls c = true →
  greedy cls k (taken ++ [c]) s = None →
  greedy cls k taken (c :: s) = k taken (c :: s).
Proof. intros Hc Hnone. cbn [greedy]. by rewrite Hc, Hnone. Qed.

(** The pattern on a document made of a front matter and a body. *)
Lemma yamlRegex_match_document a b :
  match a with [] => True | c :: _ => is_line_terminator c = false end →
  match b with [] => True | c :: _ => is_line_terminator c = false end →
  Forall (λ x, x ≠ "-"%char) b →
  match_atoms (source yamlRegex)
    (dashes ++ "010"%char :: a ++ "010"%char :: dashes ++ "010"%char :: b) []
  = Some ([string_of_list_ascii a; string_of_list_ascii b], []).
Proof.
  intros Ha Hb Hdash.
  set (T := [Plus cls_newline; Lit "-"; Lit "-"; Lit "-"; Plus cls_newline;
             Group cls_any]%char).
  assert (greedy cls_any
            (λ g rest, match_atoms T rest ([] ++ [string_of_list_ascii g])) []
            (a ++ "010"%char :: dashes ++ "010"%char :: b)
          = Some ([string_of_list_ascii a; string_of_list_ascii b], [])) as Hgroup.
  { apply greedy_longest.
    - by apply Forall_forall.
    - unfold T, dashes. cbn [app match_atoms greedy]. simpl cls_newline.
      cbn [match_atoms Ascii.eqb]. simpl.
      rewrite greedy_stop by exact Hb. cbn [match_atoms].
      rewrite <- (app_nil_r b) at 1.
      rewrite (greedy_longest _ _ _ b [] ([string_of_list_ascii a; string_of_list_ascii b], []));
        [done|by apply Forall_forall|by rewrite app_nil_l|].
      intros u w Heq Hu. by destruct u.
    - intros u w Heq Hu. destruct u as [|x u]; [done|].
      injection Heq as <- Heq.
      by apply (boundary_fails_after_dashes _ b u w). }
  unfold yamlRegex. cbn [source]. rewrite lits_plus_step.
  change (cls_newline "010") with true. cbv iota.
  destruct a as [|c a'].
  - cbn [app]. rewrite greedy_step_back; [exact Hgroup|reflexivity|].
    rewrite greedy_stop by reflexivity. rewrite group_step.
    apply greedy_None. intros u w Heq.
    by apply (boundary_fails_after_dashes _ b u w).
  - rewrite greedy_stop by exact Ha. exact Hgroup.
Qed.

Section Parser.

Context (safeLoad : string → completion (option (gmap string value))).
Context (marked : string → string).

Local Abbreviation parse_file := (parse_file safeLoad marked).
Local Abbreviation parse_loop := (parse_loop safeLoad marked).

Lemma leading_newline_of_list g :
  match g with [] => True | c :: _ => is_line_terminator c = false end →
  leading_newline (string_of_list_ascii g) = false.
Proof. by destruct g. Qed.

(** X4: the shape of a parsed document.  Whenever a file parses, its text is
    some text, a line of three dashes, the front matter that was handed to
    the YAML loader, a second line of three dashes and the content text, the
    lines being ended by runs of line breaks; the content text runs to the end
    of the file and never starts with a line break. *)
Theorem parse_file_document_shape :
  ∀ d post,
    parse_file d = Normal post →
    ∃ pre n1 front n2 n3,
      _contents d
      = pre +:+ "---" +:+ n1 +:+ front +:+ n2 +:+ "---" +:+ n3 +:+ contentText post ∧
      newlines n1 ∧ newlines n2 ∧ newlines n3 ∧
      safeLoad front = Normal (attributes post) ∧
      leading_newline (contentText post) = false ∧
      original post = _contents d ∧
      contentHtml post = marked (contentText post).
Proof.
  intros d post. unfold MarkdownProvider.parse_file, exec. cbn [global yamlRegex].
  cbn [Nat.ltb Nat.leb]. rewrite drop_0.
  destruct (scan _ _) as [[[n caps] rest]|] eqn:Hscan; [|discriminate].
  apply scan_Some in Hscan as [Hm Hn].
  apply yamlRegex_match_shape in Hm
    as (n1 & g1 & n2 & n3 & g2 & Hs & Hn1 & Hn2 & Hn3 & [= -> ->] & Hg2).
  cbn [fst app]. unfold or_empty. cbn [lookup list_lookup default from_option].
  intros H. apply bind_Normal_inv in H as (attrs & Hyaml & [= <-]).
  cbn [contentText attributes original contentHtml].
  exists (string_of_list_ascii (take n (list_ascii_of_string (_contents d)))),
    (string_of_list_ascii n1), (string_of_list_ascii g1),
    (string_of_list_ascii n2), (string_of_list_ascii n3).
  split; [|by auto 10 using newline_run_newlines, leading_newline_of_list].
  apply string_of_list_ascii_inj_list.
  rewrite !list_ascii_of_string_app, !list_ascii_of_string_of_list_ascii.
  rewrite <- (take_drop n (list_ascii_of_string (_contents d))) at 1.
  rewrite Hs. reflexivity.
Qed.

Lemma list_ascii_of_document front body :
  list_ascii_of_string (document front body)
  = dashes ++ "010"%char :: list_ascii_of_string front
    ++ "010"%char :: dashes ++ "010"%char :: list_ascii_of_string body.
Proof.
  unfold document, nl, dashes. rewrite !list_ascii_of_string_app. reflexivity.
Qed.

Lemma leading_newline_list s :
  leading_newline s = false →
  match list_ascii_of_string s with
  | [] => True
  | c :: _ => is_line_terminator c = false
  end.
Proof. by destruct s. Qed.

(** X5: a document read back.  For a front matter that does not start with
    a line break and a body that does not start with one and holds no dash,
    the document made of them parses into the attributes the YAML loader
    gives for that front matter and into that body as content text.  Dashes in
    the front matter, even a line of three, do not end it. *)
Theorem parse_file_of_document :
  ∀ name front body,
    leading_newline front = false →
    leading_newline body = false →
    Forall (λ x, x ≠ "-"%char) (list_ascii_of_string body) →
    parse_file (mkRawFile name (document front body))
    = attributes ← safeLoad front;
      Normal (mkPost (mkMeta name (path_parse name).2 (path_parse name).1)
                attributes (document front body) body (marked body)).
Proof.
  intros name front body Hfront Hbody Hdash.
  unfold MarkdownProvider.parse_file, exec. cbn [global yamlRegex _contents _name].
  cbn [Nat.ltb Nat.leb]. rewrite drop_0.
  pose proof (yamlRegex_match_document _ _ (leading_newline_list _ Hfront)
                (leading_newline_list _ Hbody) Hdash) as Hm.
  rewrite <- list_ascii_of_document in Hm.
  rewrite (scan_head _ _ _ _ Hm). cbn [fst].
  unfold or_empty. cbn [lookup list_lookup default from_option id].
  by rewrite !string_of_list_ascii_of_string.
Qed.

(** The loop, from any list of posts already pushed. *)
Lemma parse_loop_Normal data acc posts :
  parse_loop data acc = Normal posts ↔
  ∃ new, posts = acc ++ new ∧ Forall2 (λ d p, parse_file d = Normal p) data new.
Proof.
  revert acc. induction data as [|d data IH]; intros acc; cbn [MarkdownProvider.parse_loop].
  - split.
    + intros [= <-]. exists []. by rewrite app_nil_r.
    + intros (new & -> & Hnew). inversion Hnew. by rewrite app_nil_r.
  - split.
    + intros (p & Hp & H)%bind_Normal_inv. apply IH in H as (new & -> & Hnew).
      exists (p :: new). rewrite <- app_assoc. split; [done|by constructor].
    + intros (new & -> & Hnew). inversion Hnew as [|? p ? new' Hp Hnew']; subst.
      rewrite Hp. cbn. apply IH. exists new'. by rewrite <- app_assoc.
Qed.

Lemma parse_loop_Throw data acc e :
  parse_loop data acc = Throw e ↔
  ∃ before d rest posts,
    data = before ++ d :: rest ∧
    Forall2 (λ d p, parse_file d = Normal p) before posts ∧
    parse_file d = Throw e.
Proof.
  revert acc. induction data as [|d data IH]; intros acc; cbn [MarkdownProvider.parse_loop].
  - split; [discriminate|]. intros (before & d & rest & posts & Heq & _).
    by destruct before.
  - destruct (parse_file d) as [p|e'] eqn:Hp; cbn.
    + rewrite IH. split.
      * intros (before & d' & rest & posts & -> & Hdone & Hd').
        exists (d :: before), d', rest, (p :: posts). split; [done|]. split; [by constructor|done].
      * intros (before & d' & rest & posts & Heq & Hdone & Hd').
        destruct before as [|d0 before]; simplify_eq/=; [congruence|].
        inversion Hdone as [|? p' ? posts' Hp' Hdone']; subst.
        by exists before, d', rest, posts'.
    + split.
      * intros [= ->]. exists [], d, data, []. split; [done|]. split; [constructor|done].
      * intros (before & d' & rest & posts & Heq & Hdone & Hd').
        destruct before as [|d0 before]; simplify_eq/=; [congruence|].
        inversion Hdone; subst. congruence.
Qed.

(** X6: one record per file.  [parseRawDataAsync] calls back with exactly
    the records of the files, one per file and in the order of the files; and
    it throws exactly when some file does not parse, with the exception of the
    first such file, the callback not being called. *)
Theorem parseRawDataAsync_per_file :
  ∀ (R : Type) (data : list RawFile) (callback : list Post → completion R),
    (∀ posts, Forall2 (λ d p, parse_file d = Normal p) data posts →
       parseRawDataAsync safeLoad marked data callback = callback posts) ∧
    (∀ before d rest posts e,
       data = before ++ d :: rest →
       Forall2 (λ d p, parse_file d = Normal p) before posts →
       parse_file d = Throw e →
       parseRawDataAsync safeLoad marked data callback = Throw e) ∧
    (∀ posts, parse_loop data [] = Normal posts →
       length posts = length data ∧
       (location ∘ meta) <$> posts = _name <$> data ∧
       original <$> posts = _contents <$> data).
Proof.
  intros R data callback. split; [|split].
  - intros posts Hposts. unfold parseRawDataAsync.
    assert (parse_loop data [] = Normal posts) as ->; [|done].
    apply parse_loop_Normal. by exists posts.
  - intros before d rest posts e Hdata Hdone Hd. unfold parseRawDataAsync.
    assert (parse_loop data [] = Throw e) as ->; [|done].
    apply parse_loop_Throw. by exists before, d, rest, posts.
  - intros posts (new & -> & Hnew)%parse_loop_Normal. cbn [app].
    induction Hnew as [|d p data new Hp Hnew (IH1 & IH2 & IH3)]; [done|].
    cbn. rewrite IH1. unfold MarkdownProvider.parse_file in Hp.
    destruct (exec yamlRegex (_contents d)).1; [|discriminate].
    apply bind_Normal_inv in Hp as (attrs & _ & [= <-]). cbn.
    split; [done|]. split; f_equal; done.
Qed.

End Parser.

(** *** How [load] ends *)

Section Loading.

Context (engine : RegExpEngine).
Context (safeLoad : string → completion (option (gmap string value))).
Context (marked : string → string).
Context (dateParse stringToNumber : string → option Z).

Local Abbreviation parse_loop := (parse_loop safeLoad marked).
Local Abbreviation sort_posts := (sort_posts dateParse stringToNumber).
Local Abbreviation load_callback := (load_callback dateParse stringToNumber).
Local Abbreviation load := (load engine safeLoad marked dateParse stringToNumber).

Lemma sort_posts_nil sort : sort_posts sort [] = Normal [].
Proof. induction sort as [|[field d] sort IH]; [done|]. cbn. by destruct (d =? -1)%Z. Qed.

Lemma load_callback_outcome this posts o :
  load_callback this posts = Normal o → ∃ env, o = Done None (Some env).
Proof.
  intros (sorted & _ & ->)%load_callback_Normal_inv. by eexists.
Qed.

Lemma load_callback_Throw this posts e :
  load_callback this posts = Throw e ↔
  sort_posts (processSortParameter (ds_sort (schema this)))
    (filter_step this (search_step this posts)) = Throw e.
Proof.
  unfold MarkdownProvider.load_callback.
  destruct (sort_posts _ _) as [sorted|e']; cbn.
  - destruct (paginate _ _ _ _). split; discriminate.
  - split; intros [= ->]; reflexivity.
Qed.

(** X7: what [done] receives.  When [load] invokes [done], it passes either
    no error and a result envelope, or an error and no payload, never both
    and never neither; and the error is then the one thrown by [new RegExp]
    for the extension, the one thrown by [readdirSync], or the one handed
    back by a file read. *)
Theorem load_done_error_or_payload :
  ∀ this fs err payload,
    load this fs = Done err payload →
    (err = None ∧ ∃ env, payload = Some env) ∨
    (payload = None ∧ ∃ e, err = Some e ∧
       (extFilter engine (this_extension this) = Throw e ∨
        ∃ f,
          extFilter engine (this_extension this) = Normal f ∧
          (readdirSync fs (path_normalize (source_path (schema this))) = Throw e ∨
           ∃ listing,
             readdirSync fs (path_normalize (source_path (schema this)))
             = Normal listing ∧
             async_map fs
               (map (path_join (path_normalize (source_path (schema this))))
                  (filter_test f listing))
             = Throw e))).
Proof.
  intros this fs err payload. unfold MarkdownProvider.load.
  destruct (extFilter engine _) as [f|ex] eqn:Hnew.
  - destruct (readdirSync fs _) as [listing|ex] eqn:Hdir.
    + destruct (async_map fs _) as [raw|ex] eqn:Hread.
      * unfold parseRawDataAsync.
        destruct (filter_test _ listing) as [|name names] eqn:Hsel.
        -- cbn in Hread. injection Hread as <-. cbn.
           destruct (load_callback this []) as [o|e] eqn:Hcb.
           ++ apply load_callback_outcome in Hcb as [env ->]. cbn.
              intros [= <- <-]. left. eauto.
           ++ apply load_callback_Throw in Hcb. cbn [search_step filter_step] in Hcb.
              assert (filter_step this (search_step this []) = []) as Hnil.
              { unfold filter_step, search_step.
                destruct (ds_search _), (ds_filter _); done. }
              rewrite Hnil, sort_posts_nil in Hcb. discriminate.
        -- cbn [map]. destruct (parse_loop raw []) as [posts|e] eqn:Hparse; cbn.
           ++ destruct (load_callback this posts) as [o|e] eqn:Hcb; cbn; [|discriminate].
              apply load_callback_outcome in Hcb as [env ->].
              intros [= <- <-]. left. eauto.
           ++ discriminate.
      * intros [= <- <-]. right. split; [done|]. exists ex. split; [done|].
        right. exists f. split; [done|]. right. by exists listing.
    + intros [= <- <-]. right. split; [done|]. exists ex. split; [done|].
      right. exists f. split; [done|]. by left.
  - intros [= <- <-]. right. split; [done|]. exists ex. split; [done|]. by left.
Qed.

(** X8: when [load] ends without [done].  An exception escapes [load]
    exactly when at least one file was selected and read, and parsing the
    files or sorting the posts throws; it is that exception. *)
Theorem load_uncaught_iff :
  ∀ this fs e,
    load this fs = Uncaught e ↔
    ∃ f listing raw,
      extFilter engine (this_extension this) = Normal f ∧
      readdirSync fs (path_normalize (source_path (schema this))) = Normal listing ∧
      filter_test f listing ≠ [] ∧
      async_map fs
        (map (path_join (path_normalize (source_path (schema this))))
           (filter_test f listing))
      = Normal raw ∧
      (parse_loop raw [] = Throw e ∨
       ∃ posts,
         parse_loop raw [] = Normal posts ∧
         sort_posts (processSortParameter (ds_sort (schema this)))
           (filter_step this (search_step this posts)) = Throw e).
Proof.
  intros this fs e. unfold MarkdownProvider.load. split.
  - destruct (extFilter engine _) as [f|ex] eqn:Hnew; [|discriminate].
    destruct (readdirSync fs _) as [listing|ex] eqn:Hdir; [|discriminate].
    destruct (async_map fs _) as [raw|ex] eqn:Hread; [|discriminate].
    unfold parseRawDataAsync. intros H. exists f, listing, raw.
    destruct (filter_test _ listing) as [|name names] eqn:Hsel.
    + exfalso. cbn in Hread. injection Hread as <-. cbn in H.
      destruct (load_callback this []) as [o|e'] eqn:Hcb; cbn in H; [|discriminate].
      apply load_callback_outcome in Hcb as [env ->]. discriminate.
    + split; [done|]. split; [done|]. split; [done|]. split; [done|].
      cbn [map] in H. destruct (parse_loop raw []) as [posts|e'] eqn:Hparse; cbn in H.
      * right. exists posts. split; [done|].
        destruct (load_callback this posts) as [o|e''] eqn:Hcb; cbn in H.
        -- apply load_callback_outcome in Hcb as [env ->]. discriminate.
        -- injection H as ->. by apply load_callback_Throw.
      * left. by injection H as ->.
  - intros (f & listing & raw & -> & -> & Hsel & Hread & Hfail). rewrite Hread.
    unfold parseRawDataAsync.
    destruct (filter_test _ listing) as [|name names]; [done|]. cbn [map].
    destruct Hfail as [->|(posts & -> & Hsort)]; [done|]. cbn.
    apply load_callback_Throw in Hsort. by rewrite Hsort.
Qed.

End Loading.

(** *** The sort parameter *)


(** *** Search and filter *)

Lemma strict_eq_true_iff v w :
  strict_eq v w = true ↔ v = w ∧ ∀ t, v ≠ VDate t.
Proof.
  destruct v, w; cbn; split; try done; try (by intros [? ?]);
    try (by intros [[=] _]).
  - intros Hb%Bool.eqb_prop. by subst.
  - intros [[= ->] _]. apply Bool.eqb_reflx.
  - intros ->%Z.eqb_eq. done.
  - intros [[= ->] _]. apply Z.eqb_refl.
  - intros ->%String.eqb_eq. done.
  - intros [[= ->] _]. apply String.eqb_refl.
  - intros [_ H]. by destruct (H t).
Qed.

Lemma elem_of_List_filter {A} (f : A → bool) l x :
  x ∈ List.filter f l ↔ x ∈ l ∧ f x = true.
Proof. rewrite !list_elem_of_In. apply filter_In. Qed.

Lemma List_filter_sublist {A} (f : A → bool) l : List.filter f l `sublist_of` l.
Proof.
  induction l as [|x l IH]; cbn; [done|].
  destruct (f x); [by apply sublist_skip|by apply sublist_cons].
Qed.

Lemma forallb_pairs {K V} (f : K * V → bool) (l : list (K * V)) :
  forallb f l = true ↔ ∀ k v, (k, v) ∈ l → f (k, v) = true.
Proof.
  rewrite forallb_forall. split.
  - intros H k v Hin. apply H. by apply list_elem_of_In.
  - intros H [k v] Hin. apply H. by apply list_elem_of_In.
Qed.

(** X10: the posts that pass search and filter.  A post is kept exactly
    when it satisfies both predicates: every key of [search] is a top-level
    text field of the post with the same value, and every key of [filter] is
    an attribute of the post with the same value (a Date value never counts as
    the same; a post without attributes passes only the empty filter).  The
    posts kept stay in their order. *)
Theorem search_and_filter_keep :
  ∀ this posts,
    (∀ p,
       p ∈ filter_step this (search_step this posts) ↔
       p ∈ posts ∧
       (∀ search, ds_search (schema this) = Some search →
          ∀ key v, (key, v) ∈ search →
            post_property p key = Scalar v ∧ ∀ t, v ≠ VDate t) ∧
       (∀ filter, ds_filter (schema this) = Some filter →
          match attributes p with
          | Some m => ∀ key v, (key, v) ∈ filter → m !! key = Some v ∧ ∀ t, v ≠ VDate t
          | None => filter = []
          end)) ∧
    filter_step this (search_step this posts) `sublist_of` posts.
Proof.
  intros this posts. split.
  - intros p. unfold filter_step, search_step.
    assert (∀ filter,
              (0 <? length (where_attributes [attributes p] filter)) = true ↔
              match attributes p with
              | Some m =>
                  ∀ key v, (key, v) ∈ filter → m !! key = Some v ∧ ∀ t, v ≠ VDate t
              | None => filter = []
              end) as Hfilter.
    { intros filter. unfold where_attributes. cbn [List.filter].
      destruct (isMatch_attributes (attributes p) filter) eqn:E; cbn.
      - split; [intros _|done]. unfold isMatch_attributes in E.
        destruct (attributes p) as [m|]; [|by destruct filter].
        intros key v Hin. rewrite forallb_pairs in E. specialize (E key v Hin).
        cbn in E. destruct (m !! key) as [w|]; [|done].
        apply strict_eq_true_iff in E as [-> E]. done.
      - split; [done|]. intros H. exfalso. unfold isMatch_attributes in E.
        destruct (attributes p) as [m|]; [|by subst].
        apply not_true_iff_false in E. apply E. apply forallb_pairs.
        intros key v Hin. cbn. destruct (H key v Hin) as [-> Hv].
        by apply strict_eq_true_iff. }
    assert (∀ search,
              isMatch_post p search = true ↔
              ∀ key v, (key, v) ∈ search →
                post_property p key = Scalar v ∧ ∀ t, v ≠ VDate t) as Hsearch.
    { intros search. unfold isMatch_post. rewrite forallb_pairs.
      split; intros H key v Hin; specialize (H key v Hin); cbn in *.
      - destruct (post_property p key) as [|w|]; try done.
        apply strict_eq_true_iff in H as [-> H]. done.
      - destruct H as [-> Hv]. by apply strict_eq_true_iff. }
    destruct (ds_search (schema this)) as [search|],
             (ds_filter (schema this)) as [filter|];
      unfold where_posts; rewrite ?elem_of_List_filter, ?Hfilter, ?Hsearch.
    + split.
      * intros [[Hin Hs] Hf]. split; [done|]. split; [by intros ? [= <-]|by intros ? [= <-]].
      * intros (Hin & Hs & Hf). split; [split; [done|by apply Hs]|by apply Hf].
    + split.
      * intros [Hin Hs]. split; [done|]. split; [by intros ? [= <-]|done].
      * intros (Hin & Hs & _). split; [done|by apply Hs].
    + split.
      * intros [Hin Hf]. split; [done|]. split; [done|by intros ? [= <-]].
      * intros (Hin & _ & Hf). split; [done|by apply Hf].
    + split; [by intros Hin|by intros (Hin & _)].
  - unfold filter_step, search_step, where_posts.
    destruct (ds_search (schema this)), (ds_filter (schema this)); try done.
    + etrans; apply List_filter_sublist.
    + apply List_filter_sublist.
    + apply List_filter_sublist.
Qed.

(** X11: searching on an attribute.  [search] is matched against the post
    itself, not against its attributes: as soon as it names a key other than
    [original], [contentText], [contentHtml] or [attributes] (a front-matter
    key such as [title], or [meta]), no post is kept. *)
Theorem search_on_other_key_keeps_nothing :
  ∀ this posts search key v,
    ds_search (schema this) = Some search →
    (key, v) ∈ search →
    key ≠ "original" → key ≠ "contentText" → key ≠ "contentHtml" →
    key ≠ "attributes" →
    search_step this posts = [].
Proof.
  intros this posts search key v Hs Hin H1 H2 H3 H4.
  unfold search_step, where_posts. rewrite Hs.
  induction posts as [|p posts IH]; cbn; [done|].
  assert (isMatch_post p search = false) as ->; [|done].
  apply not_true_iff_false. unfold isMatch_post. rewrite forallb_pairs.
  intros H. specialize (H key v Hin). cbn in H. unfold post_property in H.
  destruct (String.eqb_spec key "meta"); [done|].
  destruct (String.eqb_spec key "attributes"); [done|].
  destruct (String.eqb_spec key "original"); [done|].
  destruct (String.eqb_spec key "contentText"); [done|].
  destruct (String.eqb_spec key "contentHtml"); done.
Qed.

(** *** The order of the sorted posts *)

Section Sorting.

Context (dateParse stringToNumber : string → option Z).

Local Abbreviation sort_posts := (sort_posts dateParse stringToNumber).
Local Abbreviation sortBy := (sortBy stringToNumber).
Local Abbreviation sort_iteratee := (sort_iteratee dateParse).
Local Abbreviation date_of := (date_of dateParse).
Local Abbreviation sortable := (sortable dateParse).
Local Abbreviation compare_criteria := (compare_criteria stringToNumber).

#[local] Instance decorated_le_trans : Transitive decorated_le.
Proof. intros x y z. unfold decorated_le, key_le. lia. Qed.

Ltac decide_comparisons :=
  repeat (match goal with
          | |- context [(?a =? ?b)%Z] => destruct (Z.eqb_spec a b)
          | |- context [(?a <? ?b)%Z] => destruct (Z.ltb_spec a b)
          end; cbn).

Lemma compare_criteria_decorated_le x y :
  number_or_undefined x → number_or_undefined y →
  (compare_criteria x y ≤ 0)%Z → decorated_le x y.
Proof.
  intros Hx Hy. destruct x as [vx ix cx], y as [vy iy cy].
  unfold number_or_undefined, criteria_number in Hx, Hy. cbn in Hx, Hy.
  unfold decorated_le, key_le, sort_key, criteria_number,
    MarkdownProvider.compare_criteria, js_gt, js_lt. cbn.
  destruct cx; destruct Hx as [Hx|Hx]; try discriminate;
    destruct cy; destruct Hy as [Hy|Hy]; try discriminate; cbn;
    decide_comparisons; lia.
Qed.

Lemma compare_criteria_decorated_gt x y :
  number_or_undefined x → number_or_undefined y →
  ¬ (compare_criteria x y ≤ 0)%Z → decorated_le y x.
Proof.
  intros Hx Hy. destruct x as [vx ix cx], y as [vy iy cy].
  unfold number_or_undefined, criteria_number in Hx, Hy. cbn in Hx, Hy.
  unfold decorated_le, key_le, sort_key, criteria_number,
    MarkdownProvider.compare_criteria, js_gt, js_lt. cbn.
  destruct cx; destruct Hx as [Hx|Hx]; try discriminate;
    destruct cy; destruct Hy as [Hy|Hy]; try discriminate; cbn;
    decide_comparisons; lia.
Qed.

Lemma decorate_indexes iteratee index posts ds :
  decorate iteratee index posts = Normal ds →
  d_index <$> ds = seq index (length posts).
Proof.
  revert index ds. induction posts as [|p posts IH]; cbn; intros index ds H.
  - by injection H as <-.
  - apply bind_Normal_inv in H as (c & _ & H).
    apply bind_Normal_inv in H as (rest & Hrest & [= <-]).
    cbn. f_equal. eauto.
Qed.

Lemma decorate_sources iteratee index posts ds :
  decorate iteratee index posts = Normal ds →
  Forall (λ d, index ≤ d_index d ∧ posts !! (d_index d - index) = Some (d_value d)) ds.
Proof.
  revert index ds. induction posts as [|p posts IH]; cbn; intros index ds H.
  - injection H as <-. constructor.
  - apply bind_Normal_inv in H as (c & _ & H).
    apply bind_Normal_inv in H as (rest & Hrest & [= <-]).
    constructor.
    + cbn. split; [lia|]. by rewrite Nat.sub_diag.
    + eapply Forall_impl; [by apply IH|]. cbn. intros d [Hle Hd]. split; [lia|].
      replace (d_index d - index) with (S (d_index d - S index)) by lia. done.
Qed.

Lemma decorate_sortable field index posts :
  Forall (sortable field) posts →
  ∃ ds, decorate (sort_iteratee field) index posts = Normal ds ∧
        Forall (decorated_for dateParse field) ds.
Proof. apply decorate_dates. Qed.

(** The ascending sort on one field, in full. *)
Lemma sortBy_ascending field posts :
  Forall (sortable field) posts →
  ∃ sorted idxs,
    sortBy posts (sort_iteratee field) = Normal sorted ∧
    idxs ≡ₚ seq 0 (length posts) ∧
    Forall2 (λ p i, posts !! i = Some p) sorted idxs ∧
    ∀ k l i j p q,
      k < l → idxs !! k = Some i → idxs !! l = Some j →
      posts !! i = Some p → posts !! j = Some q →
      in_order (date_of field p) (date_of field q) i j.
Proof.
  intros Hall.
  destruct (decorate_sortable field 0 posts Hall) as (ds & Hds & Hcrit).
  set (sd := array_sort compare_criteria ds).
  assert (sd ≡ₚ ds) as Hperm by apply array_sort_perm.
  assert (StronglySorted decorated_le sd) as Hsorted.
  { apply Sorted_StronglySorted; [apply _|].
    apply (array_sort_Sorted _ number_or_undefined).
    - apply compare_criteria_decorated_le.
    - apply compare_criteria_decorated_gt.
    - eapply Forall_impl; [exact Hcrit|].
      intros d [[Hd _]|[Hd _]]; [by left|by right]. }
  assert (Forall (decorated_for dateParse field) sd) as Hcrit' by (by rewrite Hperm).
  assert (Forall (λ d, posts !! d_index d = Some (d_value d)) sd) as Hsrc.
  { rewrite Hperm. eapply Forall_impl; [exact (decorate_sources _ _ _ _ Hds)|].
    cbn. intros d [_ Hd]. by rewrite Nat.sub_0_r in Hd. }
  assert (d_index <$> sd ≡ₚ seq 0 (length posts)) as Hidx.
  { rewrite Hperm. by rewrite (decorate_indexes _ _ _ _ Hds). }
  exists (d_value <$> sd), (d_index <$> sd).
  split; [|split; [done|split]].
  - unfold MarkdownProvider.sortBy. by rewrite Hds.
  - apply Forall2_fmap, Forall_Forall2_diag. exact Hsrc.
  - intros k l i j p q Hkl Hk Hl Hp Hq.
    rewrite list_lookup_fmap in Hk, Hl.
    destruct (sd !! k) as [dk|] eqn:Hdk; [|discriminate].
    destruct (sd !! l) as [dl|] eqn:Hdl; [|discriminate].
    cbn in Hk, Hl. injection Hk as <-. injection Hl as <-.
    rewrite Forall_lookup in Hsrc, Hcrit'.
    rewrite (Hsrc k dk Hdk) in Hp. rewrite (Hsrc l dl Hdl) in Hq.
    injection Hp as <-. injection Hq as <-.
    pose proof (StronglySorted_lookup_le _ sd k l dk dl Hsorted Hkl Hdk Hdl) as Hle.
    assert (d_index dk ≠ d_index dl) as Hne.
    { assert (NoDup (d_index <$> sd)) as Hnd by (rewrite Hidx; apply NoDup_seq).
      intros Heq. assert (k = l); [|lia].
      eapply (NoDup_lookup _ k l _ Hnd); rewrite list_lookup_fmap.
      - by rewrite Hdk.
      - rewrite Hdl. cbn. by rewrite Heq. }
    unfold decorated_le, key_le, sort_key in Hle. cbn in Hle.
    unfold in_order.
    destruct (Hcrit' k dk Hdk) as [[Hck ->]|[Hck ->]],
             (Hcrit' l dl Hdl) as [[Hcl ->]|[Hcl ->]];
      unfold criteria_number in Hle; rewrite Hck, Hcl in Hle; cbn in Hle; lia.
Qed.

Lemma sort_posts_cons field direction sort posts :
  sort_posts ((field, direction) :: sort) posts
  = sorted ← sortBy posts (sort_iteratee field);
    sort_posts sort (if (direction =? -1)%Z then reverse sorted else sorted).
Proof. reflexivity. Qed.

Lemma sort_posts_single field direction posts :
  sort_posts [(field, direction)] posts
  = sorted ← sortBy posts (sort_iteratee field);
    Normal (if (direction =? -1)%Z then reverse sorted else sorted).
Proof. reflexivity. Qed.




(** X15: sorting keeps the posts.  Whatever the values of the sort fields
    and whatever the directions, a sort that does not throw returns the posts
    it was given, rearranged: none is lost, none is repeated. *)
Theorem sort_posts_rearranges :
  ∀ sort posts sorted,
    sort_posts sort posts = Normal sorted →
    sorted ≡ₚ posts ∧ length sorted = length posts.
Proof.
  intros sort posts sorted H. apply sort_posts_perm in H.
  split; [done|by apply Permutation_length].
Qed.

Lemma decorate_with_attributes field index posts :
  Forall (λ p, is_Some (attributes p)) posts →
  ∃ ds, decorate (sort_iteratee field) index posts = Normal ds.
Proof.
  intros Hall. revert index.
  induction Hall as [|p posts [m Hm] Hall IH]; intros index; cbn.
  - by eexists.
  - destruct (IH (S index)) as [ds ->].
    unfold MarkdownProvider.sort_iteratee. rewrite Hm. cbn. by eexists.
Qed.

Lemma decorate_without_attributes field index posts :
  Exists (λ p, attributes p = None) posts →
  decorate (sort_iteratee field) index posts
  = Throw (TypeError ("Cannot read property '" +:+ field +:+ "' of undefined")).
Proof.
  intros Hex. revert index.
  induction Hex as [p posts Hp|p posts Hex IH]; intros index; cbn.
  - unfold MarkdownProvider.sort_iteratee. by rewrite Hp.
  - rewrite IH. unfold MarkdownProvider.sort_iteratee.
    by destruct (attributes p).
Qed.

Lemma sort_posts_with_attributes sort posts :
  Forall (λ p, is_Some (attributes p)) posts →
  ∃ sorted, sort_posts sort posts = Normal sorted.
Proof.
  revert posts. induction sort as [|[field d] sort IH]; intros posts Hall.
  - by eexists.
  - cbn. unfold MarkdownProvider.sortBy.
    destruct (decorate_with_attributes field 0 posts Hall) as [ds Hds].
    rewrite Hds. cbn. apply IH.
    assert (map d_value (array_sort compare_criteria ds) ≡ₚ posts) as Hperm.
    { rewrite array_sort_perm. by rewrite (decorate_values _ _ _ _ Hds). }
    destruct (d =? -1)%Z; [rewrite reverse_Permutation|]; by rewrite Hperm.
Qed.

(** X16: when sorting throws.  With at least one sort field, the sort
    succeeds when every post has attributes, and throws a TypeError naming the
    first sort field as soon as one post has none (its front matter was
    loaded as [undefined]). *)
Theorem sort_posts_needs_attributes :
  ∀ field direction sort posts,
    (Forall (λ p, is_Some (attributes p)) posts →
     ∃ sorted, sort_posts ((field, direction) :: sort) posts = Normal sorted) ∧
    (Exists (λ p, attributes p = None) posts →
     sort_posts ((field, direction) :: sort) posts
     = Throw (TypeError ("Cannot read property '" +:+ field +:+ "' of undefined"))).
Proof.
  intros field direction sort posts. split.
  - apply sort_posts_with_attributes.
  - intros Hex. cbn. unfold MarkdownProvider.sortBy.
    by rewrite (decorate_without_attributes field 0 posts Hex).
Qed.

End Sorting.

(** *** Pages *)

Section Pages.

Context (dateParse stringToNumber : string → option Z).

Local Abbreviation sort_posts := (sort_posts dateParse stringToNumber).
Local Abbreviation load_callback := (load_callback dateParse stringToNumber).

Lemma chunks_concat {A} (c : nat) (n : nat) (l : list A) :
  length l ≤ n * c →
  concat ((λ k, take c (drop (k * c) l)) <$> seq 0 n) = l.
Proof.
  revert l. induction n as [|n IH]; intros l Hlen.
  - destruct l; [done|simpl in Hlen; lia].
  - trans (take c l ++ drop c l); [|apply take_drop].
    cbn [seq]. rewrite fmap_cons. cbn [concat]. rewrite Nat.mul_0_l, drop_0. f_equal.
    rewrite <- (IH (drop c l)) by (rewrite length_drop; lia).
    rewrite <- fmap_S_seq, <- list_fmap_compose. f_equal.
    apply list_fmap_ext. intros _ k _. cbn. by rewrite drop_drop.
Qed.

Lemma page_or_1_with_page this page :
  page ≠ 0%Z → page_or_1 (with_page this (Some page)) = page.
Proof.
  intros Hne. unfold page_or_1, with_page. cbn.
  destruct (page =? 0)%Z eqn:E; [lia|done].
Qed.

(** X17: the pages cover the posts.  With a positive count, the slices that
    [load] takes for the pages 1, 2, ..., n, one after the other, are the
    whole sequence of posts, each post once and in order, as soon as n pages
    hold them all. *)
Theorem pages_cover_the_posts :
  ∀ this count postCount posts md n,
    ds_count (schema this) = Some count → (0 < count)%Z →
    (Z.of_nat (length posts) ≤ Z.of_nat n * count)%Z →
    concat ((λ k, (paginate (with_page this (Some (Z.of_nat (S k)))) postCount posts md).1)
              <$> seq 0 n)
    = posts.
Proof.
  intros this count postCount posts md n Hc Hpos Hlen.
  trans (concat ((λ k, take (Z.to_nat count) (drop (k * Z.to_nat count) posts))
                   <$> seq 0 n)); [|apply chunks_concat; nia].
  f_equal. apply list_fmap_ext. intros _ k _.
  rewrite (paginate_count _ _ _ _ count) by (done || lia).
  rewrite page_or_1_with_page by lia. cbn [fst].
  rewrite slice_from_offset by nia. do 2 f_equal. nia.
Qed.

(** X18: a page past the end.  With a positive count and a page whose
    offset is at or beyond the number of posts, [load] reports no error but
    an empty list of results, with metadata that still counts all the
    filtered posts. *)
Theorem page_past_the_end_is_empty :
  ∀ this posts sorted count,
    ds_count (schema this) = Some count → (0 < count)%Z →
    (1 ≤ page_or_1 this)%Z →
    sort_posts (processSortParameter (ds_sort (schema this)))
      (filter_step this (search_step this posts)) = Normal sorted →
    (Z.of_nat (length sorted) ≤ (page_or_1 this - 1) * count)%Z →
    ∃ md,
      load_callback this posts
      = Normal (Done None (Some (mkEnvelope [] (MObject md)))) ∧
      totalCount md = Z.of_nat (length (filter_step this (search_step this posts))).
Proof.
  intros this posts sorted count Hc Hpos Hpage Hsort Hlen.
  eexists. split.
  - rewrite (load_callback_sorted _ _ _ _ _ Hsort).
    rewrite (paginate_count _ _ _ _ count) by (done || lia). cbn [fst snd].
    rewrite slice_from_offset by nia.
    rewrite drop_ge by lia. rewrite take_nil.
    unfold project. destruct (default [] _); reflexivity.
  - reflexivity.
Qed.

(** X19: without a count.  When the count is missing or 0, pagination is
    not triggered whatever the page: [load] reports all the filtered posts,
    in sorted order, projected on the requested fields. *)
Theorem no_count_returns_all_posts :
  ∀ this posts sorted,
    truthy_num (ds_count (schema this)) = false →
    sort_posts (processSortParameter (ds_sort (schema this)))
      (filter_step this (search_step this posts)) = Normal sorted →
    load_callback this posts
    = Normal (Done None (Some (mkEnvelope (project this sorted) MEmptyArray))).
Proof.
  intros this posts sorted Hc Hsort.
  rewrite (load_callback_sorted _ _ _ _ _ Hsort).
  by rewrite paginate_no_count.
Qed.

(** X20: the default page.  A missing page and the page 0 are the page 1:
    the callback of [load] reports the same as for a datasource that asks for
    page 1. *)
Theorem page_defaults_to_first :
  ∀ this posts,
    ds_page (schema this) = None ∨ ds_page (schema this) = Some 0%Z →
    load_callback this posts = load_callback (with_page this (Some 1%Z)) posts.
Proof.
  intros this posts Hpage.
  unfold MarkdownProvider.load_callback.
  change (search_step (with_page this (Some 1%Z))) with (search_step this).
  change (filter_step (with_page this (Some 1%Z))) with (filter_step this).
  change (ds_sort (schema (with_page this (Some 1%Z)))) with (ds_sort (schema this)).
  destruct (sort_posts _ _) as [sorted|e]; [|done]. cbn.
  assert (∀ n l md, paginate this n l md = paginate (with_page this (Some 1%Z)) n l md)
    as ->.
  { intros n l md. unfold paginate.
    assert (page_or_1 this = 1%Z) as ->
      by (unfold page_or_1; destruct Hpage as [->| ->]; done).
    done. }
  reflexivity.
Qed.

End Pages.

(** *** The names in [meta] *)

Lemma split_last_absent c s :
  Forall (λ x, x ≠ c) s → split_last c s = None.
Proof.
  induction 1 as [|x s Hx Hs IH]; cbn; [done|]. rewrite IH.
  by destruct (Ascii.eqb_spec x c).
Qed.

Lemma split_last_app c a b :
  Forall (λ x, x ≠ c) b → split_last c (a ++ c :: b) = Some (a, b).
Proof.
  intros Hb. induction a as [|x a IH]; cbn.
  - rewrite (split_last_absent _ _ Hb). by rewrite Ascii.eqb_refl.
  - by rewrite IH.
Qed.

(** X26: handle and extension.  For a file [name.ext] in a directory, where
    [name] is not empty and neither [name] nor [ext] holds a dot or a slash,
    the record built by [parseRawDataAsync] has [name] as handle, [.ext] as
    extension and the whole path as location; for a file whose name starts
    with its only dot ([.ext]) the handle is the whole name and the extension
    is empty. *)
Theorem path_parse_handle_and_extension :
  ∀ dir name ext,
    Forall (λ x, x ≠ "."%char ∧ x ≠ "/"%char) (list_ascii_of_string name) →
    Forall (λ x, x ≠ "."%char ∧ x ≠ "/"%char) (list_ascii_of_string ext) →
    (name ≠ "" → path_parse (path_join dir (name +:+ "." +:+ ext)) = (name, "." +:+ ext)) ∧
    path_parse (path_join dir ("." +:+ ext)) = ("." +:+ ext, "").
Proof.
  intros dir name ext Hname Hext.
  assert (Forall (λ x, x ≠ "."%char) (list_ascii_of_string ext)) as Hext_dot
    by (eapply Forall_impl; [exact Hext|]; by intros x [? ?]).
  assert (Forall (λ x, x ≠ "/"%char) (list_ascii_of_string ext)) as Hext_slash
    by (eapply Forall_impl; [exact Hext|]; by intros x [? ?]).
  assert (Forall (λ x, x ≠ "/"%char) (list_ascii_of_string name)) as Hname_slash
    by (eapply Forall_impl; [exact Hname|]; by intros x [? ?]).
  split.
  - intros Hne. unfold path_parse, path_join.
    rewrite !list_ascii_of_string_app.
    change (list_ascii_of_string "/") with ["/"%char].
    change (list_ascii_of_string ".") with ["."%char]. cbn [app].
    rewrite split_last_app.
    2:{ apply Forall_app. split; [done|]. by apply Forall_cons_2. }
    rewrite split_last_app by done.
    destruct (list_ascii_of_string name) as [|x a] eqn:Hn.
    + exfalso. apply Hne. apply string_of_list_ascii_inj_list. by rewrite Hn.
    + rewrite <- Hn, !string_of_list_ascii_of_string.
      f_equal. apply string_of_list_ascii_inj_list.
      by rewrite list_ascii_of_string_of_list_ascii.
  - unfold path_parse, path_join.
    rewrite !list_ascii_of_string_app.
    change (list_ascii_of_string "/") with ["/"%char].
    change (list_ascii_of_string ".") with ["."%char]. cbn [app].
    rewrite split_last_app by (by apply Forall_cons_2).
    pose proof (split_last_app "." [] _ Hext_dot) as Hdot. cbn [app] in Hdot.
    rewrite Hdot.
    f_equal. apply string_of_list_ascii_inj_list.
    by rewrite list_ascii_of_string_of_list_ascii, list_ascii_of_string_app.
Qed.

(** *** The further properties at concrete inputs *)

Lemma filter_test_is_selection_witness :
  ∃ R,
    extFilter strict_engine "md" = Normal (Native R) ∧
    filter_test (E:=strict_engine) (Native R) ["a.md"; "b.md"; "notes.md"; "x.txt"]
    = ["a.md"; "notes.md"].
Proof.
  destruct (filter_test_is_selection strict_engine "md") as (R & HR & Hsel & _).
  - unfold ordinary. cbn.
    repeat (apply Forall_cons_2; [reflexivity|]). apply Forall_nil_2.
  - exists R. split; [exact HR|]. rewrite Hsel. reflexivity.
Defined.

Lemma filter_test_single_name_witness :
  ∃ f,
    extFilter strict_engine "md" = Normal f ∧
    filter_test f ["README-md"] = ["README-md"].
Proof.
  destruct (filter_test_single_name strict_engine "md") as (f & Hf & Hname).
  - unfold ordinary. cbn.
    repeat (apply Forall_cons_2; [reflexivity|]). apply Forall_nil_2.
  - exists f. split; [exact Hf|].
    apply Hname. exists "README", "-"%char. split; reflexivity.
Defined.

Lemma filter_test_same_length_witness :
  ∃ f,
    extFilter strict_engine "md" = Normal f ∧
    filter_test f ["0001.md"; "0002.md"; "0003.md"] = ["0001.md"; "0003.md"].
Proof.
  destruct (filter_test_same_length_keeps_every_other strict_engine "md")
    as (f & Hf & Hevens).
  - unfold ordinary. cbn.
    repeat (apply Forall_cons_2; [reflexivity|]). apply Forall_nil_2.
  - exists f. split; [exact Hf|].
    apply (Hevens 7).
    repeat (apply Forall_cons_2; [split; reflexivity|]). apply Forall_nil_2.
Defined.

Lemma parse_file_document_shape_witness :
  ∃ post pre n1 front n2 n3,
    parse_file flat_yaml paragraph (mkRawFile "posts/a.md" (document "title: A" "body"))
    = Normal post ∧
    document "title: A" "body"
    = pre +:+ "---" +:+ n1 +:+ front +:+ n2 +:+ "---" +:+ n3 +:+ contentText post ∧
    leading_newline (contentText post) = false.
Proof.
  destruct (parse_file flat_yaml paragraph
              (mkRawFile "posts/a.md" (document "title: A" "body")))
    as [post|e] eqn:E; [|vm_compute in E; discriminate].
  destruct (parse_file_document_shape flat_yaml paragraph _ post E)
    as (pre & n1 & front & n2 & n3 & Hdoc & _ & _ & _ & _ & Hlead & _).
  exists post, pre, n1, front, n2, n3. auto.
Defined.

(** A line of three dashes inside the text goes to the front matter. *)
Lemma parse_file_of_document_witness :
  parse_file flat_yaml paragraph
    (mkRawFile "posts/a.md"
       (document ("title: A" +:+ nl +:+ "---" +:+ nl +:+ "intro: x") "rest"))
  = attributes ← flat_yaml ("title: A" +:+ nl +:+ "---" +:+ nl +:+ "intro: x");
    Normal (mkPost (mkMeta "posts/a.md" ".md" "a") attributes
              (document ("title: A" +:+ nl +:+ "---" +:+ nl +:+ "intro: x") "rest")
              "rest" "<p>rest</p>").
Proof.
  apply (parse_file_of_document flat_yaml paragraph "posts/a.md"
           ("title: A" +:+ nl +:+ "---" +:+ nl +:+ "intro: x") "rest").
  - reflexivity.
  - reflexivity.
  - repeat (apply Forall_cons_2; [discriminate|]). apply Forall_nil_2.
Defined.

Lemma parseRawDataAsync_per_file_witness :
  ∃ posts,
    parse_loop flat_yaml paragraph
      [mkRawFile "posts/a.md" (document "title: A" "first");
       mkRawFile "posts/b.md" (document "title: B" "second")] [] = Normal posts ∧
    length posts = 2 ∧
    (location ∘ meta) <$> posts = ["posts/a.md"; "posts/b.md"].
Proof.
  destruct (parse_loop flat_yaml paragraph
              [mkRawFile "posts/a.md" (document "title: A" "first");
               mkRawFile "posts/b.md" (document "title: B" "second")] [])
    as [posts|e] eqn:E; [|vm_compute in E; discriminate].
  destruct (parseRawDataAsync_per_file flat_yaml paragraph (list Post)
              [mkRawFile "posts/a.md" (document "title: A" "first");
               mkRawFile "posts/b.md" (document "title: B" "second")]
              (λ posts, Normal posts)) as (_ & _ & H).
  destruct (H posts E) as (Hlen & Hloc & _).
  exists posts. auto.
Defined.

Lemma path_parse_witness :
  path_parse (path_join "posts" ("hello-world" +:+ "." +:+ "md")) = ("hello-world", ".md").
Proof.
  destruct (path_parse_handle_and_extension "posts" "hello-world" "md") as [H _].
  - repeat (apply Forall_cons_2; [split; discriminate|]). apply Forall_nil_2.
  - repeat (apply Forall_cons_2; [split; discriminate|]). apply Forall_nil_2.
  - apply H. discriminate.
Defined.

(** With the extension [(] the pattern is no pattern: [done] receives the
    SyntaxError of [new RegExp] and no payload. *)
Lemma load_done_error_or_payload_witness :
  ∃ e,
    load strict_engine flat_yaml paragraph iso_date_parse digits_to_number
      (with_extension "(") three_posts = Done (Some e) None ∧
    extFilter strict_engine "(" = Throw e ∧
    err_name e = "SyntaxError".
Proof.
  destruct (load strict_engine flat_yaml paragraph iso_date_parse digits_to_number
              (with_extension "(") three_posts)
    as [err payload|e] eqn:Hload; [|vm_compute in Hload; discriminate].
  destruct (load_done_error_or_payload _ _ _ _ _ _ _ _ _ Hload)
    as [[-> _]|(-> & e & -> & Hsrc)].
  - vm_compute in Hload. discriminate.
  - exists e. split; [reflexivity|].
    destruct Hsrc as [He|(f & Hf & _)]; [|vm_compute in Hf; discriminate].
    split; [exact He|]. vm_compute in He. injection He as <-. reflexivity.
Defined.

Lemma search_on_other_key_witness :
  search_step (searching [("title", VStr "A")])
    [sample_post "a" "title" (VStr "A")] = [].
Proof.
  apply (search_on_other_key_keeps_nothing _ _ [("title", VStr "A")] "title" (VStr "A"));
    [reflexivity|by apply list_elem_of_singleton|done..].
Defined.

Lemma sortable_tied_posts : Forall (sortable iso_date_parse "date") tied_posts.
Proof.
  repeat (apply Forall_cons_2; [left; eexists; vm_compute; reflexivity|]).
  apply Forall_cons_2; [by right|]. apply Forall_nil_2.
Defined.




Lemma sort_posts_rearranges_witness :
  ∃ sorted,
    sort_posts iso_date_parse digits_to_number [("date", (-1)%Z)] dated_posts
    = Normal sorted ∧
    sorted ≡ₚ dated_posts ∧ length sorted = 4.
Proof.
  destruct (sort_posts iso_date_parse digits_to_number [("date", (-1)%Z)] dated_posts)
    as [sorted|e] eqn:E; [|vm_compute in E; discriminate].
  exists sorted. split; [done|].
  exact (sort_posts_rearranges iso_date_parse digits_to_number _ _ _ E).
Defined.

Lemma sort_posts_needs_attributes_witness :
  sort_posts iso_date_parse digits_to_number [("date", 1%Z)]
    [sample_post "a" "date" (VStr "2020-01-01"); bare_post "b"]
  = Throw (TypeError "Cannot read property 'date' of undefined").
Proof.
  apply (sort_posts_needs_attributes iso_date_parse digits_to_number "date" 1 []).
  apply Exists_cons_tl, Exists_cons_hd. reflexivity.
Defined.

Lemma pages_cover_the_posts_witness :
  concat ((λ k, (paginate (with_page (paged 10 None) (Some (Z.of_nat (S k))))
                   25 posts25 MEmptyArray).1) <$> seq 0 3)
  = posts25.
Proof.
  apply (pages_cover_the_posts (paged 10 None) 10); [reflexivity|lia|].
  vm_compute. discriminate.
Defined.

Lemma page_past_the_end_witness :
  ∃ md,
    load_callback iso_date_parse digits_to_number (paged 10 (Some 4%Z)) posts25
    = Normal (Done None (Some (mkEnvelope [] (MObject md)))) ∧
    totalCount md = 25%Z.
Proof.
  destruct (page_past_the_end_is_empty iso_date_parse digits_to_number
              (paged 10 (Some 4%Z)) posts25 posts25 10%Z) as (md & Hcb & Htotal);
    [reflexivity|lia|vm_compute; discriminate|reflexivity|vm_compute; discriminate|].
  exists md. split; [exact Hcb|exact Htotal].
Defined.

Lemma no_count_returns_all_posts_witness :
  load_callback iso_date_parse digits_to_number (paged 0 (Some 3%Z)) posts25
  = Normal (Done None (Some (mkEnvelope (Record_ <$> posts25) MEmptyArray))).
Proof.
  apply (no_count_returns_all_posts iso_date_parse digits_to_number
           (paged 0 (Some 3%Z)) posts25 posts25); reflexivity.
Defined.

Lemma page_defaults_to_first_witness :
  load_callback iso_date_parse digits_to_number (paged 10 (Some 0%Z)) posts25
  = load_callback iso_date_parse digits_to_number
      (with_page (paged 10 (Some 0%Z)) (Some 1%Z)) posts25.
Proof.
  apply (page_defaults_to_first iso_date_parse digits_to_number). by right.
Defined.

End MarkdownProviderMore.

(** ** Further properties of the view *)

Module ViewMore.
Import Js View ViewConstructor Examples ViewFacts.

Section Rendering.

Context {Data : Type}.
Context (require : string → completion (Data → string → Data * completion string)).
Context (template_render : Data → string → bool → completion string).

Local Abbreviation run_postProcessors := (run_postProcessors Data require).
Local Abbreviation render := (render Data require template_render).

(** The chain of a page: its own post-processors, then the global ones. *)
Local Abbreviation chain_of this own :=
  (own ++ default [] (globalPostProcessors (page Data this))).

(** How the loop ends with an exception. *)
Lemma run_postProcessors_Throw scripts d raw processed log d' log' e :
  run_postProcessors scripts d raw processed log = (d', log', Throw e) →
  ∃ pre script post dp lp out,
    scripts = pre ++ script :: post ∧
    run_postProcessors pre d raw processed log = (dp, lp, Normal out) ∧
    ((require script = Throw e ∧ d' = dp ∧ log' = lp) ∨
     (∃ f, require script = Normal f ∧ f dp raw = (d', Throw e) ∧
           log' = lp ++ [mkInvocation Data script dp raw])).
Proof.
  revert d processed log. induction scripts as [|s scripts IH];
    intros d processed log H; [discriminate|].
  cbn [View.run_postProcessors] in H.
  destruct (require s) as [f|e'] eqn:Hreq.
  - destruct (f d raw) as [d1 [out|e']] eqn:Hf.
    + apply IH in H as (pre & script & post & dp & lp & out' & -> & Hpre & Hend).
      exists (s :: pre), script, post, dp, lp, out'. split; [done|]. split; [|done].
      cbn [View.run_postProcessors]. by rewrite Hreq, Hf.
    + injection H as <- <- <-.
      exists [], s, scripts, d, log, processed. split; [done|]. split; [done|].
      right. by exists f.
  - injection H as <- <- <-.
    exists [], s, scripts, d, log, processed. split; [done|]. split; [done|]. by left.
Qed.

(** The scripts the loop calls are the first scripts of the chain, in order,
    and all of them when it ends without exception. *)
Lemma run_postProcessors_scripts scripts d raw processed log :
  let r := run_postProcessors scripts d raw processed log in
  ∃ ran,
    inv_script Data <$> r.1.2 = (inv_script Data <$> log) ++ ran ∧
    ran `prefix_of` scripts ∧
    (∀ out, r.2 = Normal out → ran = scripts).
Proof.
  revert d processed log. induction scripts as [|s scripts IH];
    intros d processed log; cbn [View.run_postProcessors].
  - exists []. rewrite app_nil_r. done.
  - destruct (require s) as [f|e'].
    + destruct (f d raw) as [d1 [out|e']].
      * destruct (IH d1 out (log ++ [mkInvocation Data s d raw])) as (ran & Hlog & Hpre & Hall).
        exists (s :: ran). cbn zeta in *. rewrite Hlog, fmap_app, <- app_assoc.
        split; [done|]. split; [by apply prefix_cons|].
        intros out' Hout. by rewrite (Hall out' Hout).
      * exists [s]. cbn. rewrite fmap_app. split; [done|].
        split; [by apply prefix_cons, prefix_nil|]. discriminate.
    + exists []. cbn. rewrite app_nil_r. split; [done|].
      split; [apply prefix_nil|]. discriminate.
Qed.

(** X21: every error [done] receives.  When [render] hands an error to
    [done], then either the template was rejected or [postProcessors] is
    [false], and the error carries the status 500 with [null] as output; or
    some script of the chain could not be loaded or threw after the scripts
    before it had returned, and [done] received that very exception and no
    other argument. *)
Theorem render_error_cases :
  ∀ this e processed raw',
    (render this).2 = mkDone (Some e) processed raw' →
    raw' = AUndefined ∧
    ((processed = ANull ∧ statusCode e = Some 500%Z ∧
      ((∃ err, template_render (data Data this) (hostKey (page Data this))
                 (keepWhitespace (page Data this)) = Throw err ∧
               err_name e = err_name err ∧ err_message e = err_message err) ∨
       ((∃ raw, template_render (data Data this) (hostKey (page Data this))
                  (keepWhitespace (page Data this)) = Normal raw) ∧
        postProcessors (page Data this) = PPFalse))) ∨
     (processed = AUndefined ∧
      ∃ raw own pre script post dp lp out,
        template_render (data Data this) (hostKey (page Data this))
          (keepWhitespace (page Data this)) = Normal raw ∧
        postProcessors (page Data this) = PPArray own ∧
        chain_of this own = pre ++ script :: post ∧
        run_postProcessors pre (data Data this) raw raw [] = (dp, lp, Normal out) ∧
        (require script = Throw e ∨
         ∃ f d', require script = Normal f ∧ f dp raw = (d', Throw e)))).
Proof.
  intros this e processed raw'. unfold View.render, postProcessors_.
  destruct (template_render _ _ _) as [raw|err] eqn:Ht.
  - destruct (postProcessors (page Data this)) as [|own] eqn:Hpp.
    + cbn. intros [= <- <- <-]. split; [done|]. left. split; [done|]. split; [done|].
      right. split; [by eexists|done].
    + destruct (0 <? length (chain_of this own)) eqn:Hlen; cbn [andb is_false negb].
      * destruct (run_postProcessors _ _ _ _ _) as [[d lg] [out|e']] eqn:Hrun;
          cbn; intros [= <- <- <-].
        split; [done|]. right. split; [done|].
        apply run_postProcessors_Throw
          in Hrun as (pre & script & post & dp & lp & out & Hchain & Hpre & Hend).
        exists raw, own, pre, script, post, dp, lp, out.
        split; [done|]. split; [done|]. split; [done|]. split; [done|].
        destruct Hend as [[Hreq _]|(f & Hreq & Hf & _)]; [by left|right; eauto].
      * cbn. discriminate.
  - cbn. intros [= <- <- <-]. split; [done|]. left. split; [done|]. split; [done|].
    left. by exists err.
Qed.

(** X22: an error or an output.  Whatever happens, [done] receives either
    no error and two strings, the processed and the raw output, or an error
    and no output at all. *)
Theorem render_error_or_output :
  ∀ this,
    (done_err (render this).2 = None ∧
     ∃ processed raw,
       done_processed (render this).2 = AString processed ∧
       done_raw (render this).2 = AString raw ∧
       template_render (data Data this) (hostKey (page Data this))
         (keepWhitespace (page Data this)) = Normal raw) ∨
    ((∃ e, done_err (render this).2 = Some e) ∧
     (done_processed (render this).2 = ANull ∨
      done_processed (render this).2 = AUndefined) ∧
     done_raw (render this).2 = AUndefined).
Proof.
  intros this. unfold View.render, postProcessors_.
  destruct (template_render _ _ _) as [raw|err] eqn:Ht.
  - destruct (postProcessors (page Data this)) as [|own].
    + right. cbn. split; [by eexists|]. split; [by left|done].
    + destruct (0 <? length (chain_of this own)); cbn [andb is_false negb].
      * destruct (run_postProcessors _ _ _ _ _) as [[d lg] [out|e']]; cbn.
        -- left. split; [done|]. by exists out, raw.
        -- right. split; [by eexists|]. split; [by right|done].
      * left. cbn. split; [done|]. by exists raw, raw.
  - right. cbn. split; [by eexists|]. split; [by left|done].
Qed.

(** X23: which scripts run.  The post-processors [render] calls are the
    first scripts of the chain made of the page's own scripts followed by the
    global ones, each once and in that order; when [done] receives no error,
    they are the whole chain. *)
Theorem render_calls_chain_in_order :
  ∀ this own,
    postProcessors (page Data this) = PPArray own →
    inv_script Data <$> (render this).1.2 `prefix_of` chain_of this own ∧
    (done_err (render this).2 = None →
     inv_script Data <$> (render this).1.2 = chain_of this own).
Proof.
  intros this own Hpp. unfold View.render, postProcessors_. rewrite Hpp.
  destruct (template_render _ _ _) as [raw|err] eqn:Ht.
  - destruct (0 <? length (chain_of this own)) eqn:Hlen; cbn [andb is_false negb].
    + destruct (run_postProcessors_scripts (chain_of this own) (data Data this) raw raw [])
        as (ran & Hlog & Hpre & Hall).
      cbn zeta in *.
      destruct (run_postProcessors _ _ _ _ _) as [[d lg] [out|e']]; cbn in *.
      * rewrite Hlog. split; [done|]. intros _. by apply (Hall out).
      * rewrite Hlog. split; [done|]. discriminate.
    + cbn. split; [apply prefix_nil|]. intros _.
      apply Nat.ltb_ge in Hlen. symmetry. apply length_zero_iff_nil. lia.
  - cbn. split; [apply prefix_nil|]. discriminate.
Qed.

(** X24: [postProcessors] set to [false].  The array method is called on the
    value before it is compared with [false]: a page whose [postProcessors]
    is [false] never renders.  Whether its template succeeds or not, [done]
    receives an error with status 500 and [null], the view is left as it was
    and no script is called, the global ones included; when the template
    succeeds the error is a TypeError. *)
Theorem render_with_postProcessors_false :
  ∀ this,
    postProcessors (page Data this) = PPFalse →
    (render this).1 = (this, []) ∧
    ∃ e,
      (render this).2 = mkDone (Some e) ANull AUndefined ∧
      statusCode e = Some 500%Z ∧
      (∀ raw,
         template_render (data Data this) (hostKey (page Data this))
           (keepWhitespace (page Data this)) = Normal raw →
         e = mkError "TypeError" "this.page.postProcessors.concat is not a function"
               (Some 500%Z)).
Proof.
  intros this Hpp. unfold View.render, postProcessors_. rewrite Hpp.
  destruct (template_render _ _ _) as [raw|err]; cbn.
  - split; [done|]. eexists. split; [done|]. split; [done|]. done.
  - split; [done|]. eexists. split; [done|]. split; [done|]. discriminate.
Qed.

End Rendering.

(** *** The template name *)

Lemma indexOf_from_app_dot name rest i :
  Forall (λ c, c ≠ "."%char) name →
  indexOf_from "." (name ++ "."%char :: rest) i = (i + Z.of_nat (length name))%Z.
Proof.
  intros Hname. revert i. induction Hname as [|c name Hc Hname IH]; intros i; cbn.
  - lia.
  - destruct (Ascii.eqb_spec c "."); [done|]. rewrite IH. lia.
Qed.

Lemma indexOf_from_no_dot s i :
  Forall (λ c, c ≠ "."%char) s → indexOf_from "." s i = (-1)%Z.
Proof.
  intros Hs. revert i. induction Hs as [|c s Hc Hs IH]; intros i; cbn; [done|].
  by destruct (Ascii.eqb_spec c ".").
Qed.

(** X25: the template name.  For a template file name with a dot, the name
    of the template is the host key followed by the part before the first
    dot; for a file name without a dot, [indexOf] gives -1 and the slice drops
    the last character of the name. *)
Theorem templateName_cuts_at_first_dot :
  ∀ hostKey name,
    Forall (λ c, c ≠ "."%char) (list_ascii_of_string name) →
    (∀ rest, templateName hostKey (name +:+ "." +:+ rest) = hostKey +:+ name) ∧
    (∀ c, c ≠ "."%char →
       templateName hostKey (name +:+ String c "") = hostKey +:+ name).
Proof.
  intros hostKey name Hname. split.
  - intros rest. unfold templateName, string_slice, indexOf. f_equal.
    apply MarkdownProviderMore.string_of_list_ascii_inj_list.
    rewrite list_ascii_of_string_of_list_ascii.
    rewrite MarkdownProviderMore.list_ascii_of_string_app.
    change (list_ascii_of_string ("." +:+ rest))
      with ("."%char :: list_ascii_of_string rest).
    rewrite indexOf_from_app_dot by done.
    rewrite Z.add_0_l.
    pose proof (MarkdownProviderFacts.slice_from_offset
                  (list_ascii_of_string name ++ "."%char :: list_ascii_of_string rest)
                  0 (Z.of_nat (length (list_ascii_of_string name)))) as Hs.
    rewrite Z.add_0_l in Hs. rewrite Hs by lia.
    rewrite Nat2Z.id. change (Z.to_nat 0) with 0. rewrite drop_0.
    by rewrite take_app_length.
  - intros c Hc. unfold templateName, string_slice, indexOf. f_equal.
    apply MarkdownProviderMore.string_of_list_ascii_inj_list.
    rewrite list_ascii_of_string_of_list_ascii.
    rewrite MarkdownProviderMore.list_ascii_of_string_app. cbn [list_ascii_of_string].
    rewrite indexOf_from_no_dot by (apply Forall_app; split; [done|by repeat constructor]).
    unfold MarkdownProvider.slice, MarkdownProvider.relative_index.
    rewrite length_app. cbn [length].
    assert ((0 <? 0)%Z = false) as -> by lia.
    assert ((-1 <? 0)%Z = true) as -> by lia.
    rewrite Z.min_l by lia. change (Z.to_nat 0) with 0. rewrite drop_0.
    replace (Z.to_nat (Z.max (Z.of_nat (length (list_ascii_of_string name) + 1) + -1) 0 - 0))
      with (length (list_ascii_of_string name)) by lia.
    by rewrite take_app_length.
Qed.

Lemma render_error_cases_witness :
  ∃ e,
    (render nat processors echo_template (view_with ["upper"; "missing"])).2
    = mkDone (Some e) AUndefined AUndefined ∧
    processors "missing" = Throw e.
Proof.
  destruct (render nat processors echo_template (view_with ["upper"; "missing"])).2
    as [[e|] processed raw'] eqn:E; [|vm_compute in E; discriminate].
  destruct (render_error_cases processors echo_template _ e processed raw' E)
    as [-> _].
  exists e. vm_compute in E. injection E as <- <-. split; reflexivity.
Defined.

Lemma render_calls_chain_in_order_witness :
  inv_script nat <$>
    (render nat processors echo_template (view_with ["upper"; "failing"; "minify"])).1.2
  `prefix_of` ["upper"; "failing"; "minify"].
Proof.
  destruct (render_calls_chain_in_order processors echo_template
              (view_with ["upper"; "failing"; "minify"]) ["upper"; "failing"; "minify"])
    as [H _]; [reflexivity|exact H].
Defined.

Lemma render_with_postProcessors_false_witness :
  (render nat processors echo_template view_disabled).1 = (view_disabled, []) ∧
  ∃ e,
    (render nat processors echo_template view_disabled).2
    = mkDone (Some e) ANull AUndefined ∧
    statusCode e = Some 500%Z.
Proof.
  destruct (render_with_postProcessors_false processors echo_template view_disabled)
    as (Hview & e & Hdone & Hstatus & _); [reflexivity|].
  split; [exact Hview|]. exists e. split; [exact Hdone|exact Hstatus].
Defined.

Lemma templateName_witness :
  templateName "site" "article.dust.html" = "sitearticle" ∧
  templateName "site" "article" = "sitearticl".
Proof.
  destruct (templateName_cuts_at_first_dot "site" "article") as [Hdot _].
  { repeat (apply Forall_cons_2; [discriminate|]). apply Forall_nil_2. }
  destruct (templateName_cuts_at_first_dot "site" "articl") as [_ Hlast].
  { repeat (apply Forall_cons_2; [discriminate|]). apply Forall_nil_2. }
  split; [exact (Hdot "dust.html")|exact (Hlast "e"%char ltac:(discriminate))].
Defined.

End ViewMore.
